(** * Groupcache: the read-through loader, batch fetch and peer refresh loop

    A shallow embedding of [pkg/cache/groupcache.go]: the getter that
    [NewGroupcacheWithConfig] registers with the galaxy, [Groupcache.Store],
    [Groupcache.Fetch] and the goroutine that refreshes the peer set.

    Collaborators that live outside the file (the object-store bucket, the
    cache-key parser, the caching-bucket configuration, the json encoder,
    the destination codec, the DNS provider and the galaxycache universe)
    are taken as parameters; every call the code makes on them is recorded
    in a trace so that "no backend call" and "exactly this call" can be
    stated. *)

From Stdlib Require Import ZArith List Strings.String Strings.Byte Lia.
From stdpp Require Import gmap strings list.

Local Open Scope Z_scope.

(** ** Basic data *)

(** A Go [error] value, identified by its message. *)
Definition error := string.

(** [[]byte]. *)
Definition bytes := list byte.

(** A function result [(T, error)]. *)
Inductive result (A : Type) : Type :=
| Ok (a : A)
| Err (e : error).
Arguments Ok {A} a.
Arguments Err {A} e.

(** [time.Duration]: a count of nanoseconds.  [time.Time]: an instant, as
    nanoseconds on the integer line; [Time.Add] shifts the instant. *)
Definition Duration := Z.
Definition Time := Z.
Definition Time_Add (t : Time) (d : Duration) : Time := t + d.

(** [int64] arithmetic wraps around. *)
Definition int64_wrap (z : Z) : Z := (z + 2 ^ 63) mod 2 ^ 64 - 2 ^ 63.
Definition int64_sub (a b : Z) : Z := int64_wrap (a - b).
Definition is_int64 (z : Z) : Prop := - 2 ^ 63 <= z < 2 ^ 63.

(** [[]byte(s)] for a Go string. *)
Definition bytes_of_string (s : string) : bytes := list_byte_of_string s.

(** [strconv.FormatBool]. *)
Definition FormatBool (b : bool) : string :=
  if b then "true"%string else "false"%string.

(** ** Cache keys ([cachekey.BucketCacheKey]) *)

Definition VerbType := string.

Record BucketCacheKey : Type := mkBucketCacheKey {
  Verb : VerbType;
  Name : string;
  Start : Z;
  End : Z
}.

(** ** The per-operation configurations, with the fields the getter reads *)

Record AttributesConfig : Type := { AttributesConfig_TTL : Duration }.
Record IterConfig : Type := { IterConfig_TTL : Duration }.
Record GetConfig : Type := { ContentTTL : Duration }.
Record ExistsConfig : Type := { ExistsTTL : Duration; DoesntExistTTL : Duration }.
Record GetRangeConfig : Type := { SubrangeTTL : Duration }.

(** [*CachingBucketConfig]: each finder returns the matching configuration
    or a nil pointer ([None]). *)
Record CachingBucketConfig : Type := {
  FindAttributesConfig : string -> option AttributesConfig;
  FindIterConfig : string -> option IterConfig;
  FindGetConfig : string -> option GetConfig;
  FindExistConfig : string -> option ExistsConfig;
  FindGetRangeConfig : string -> option GetRangeConfig
}.

(** ** Streams ([io.ReadCloser]) and [ioutil.ReadAll] *)

(** What a reader will deliver: chunks, then end of file or a read error. *)
Inductive ReadCloser : Type :=
| EOF
| Chunk (b : bytes) (rest : ReadCloser)
| ReadFail (e : error).

(** [ioutil.ReadAll]: reads until end of file or the first error. *)
Fixpoint ReadAll (rc : ReadCloser) : result bytes :=
  match rc with
  | EOF => Ok []
  | Chunk b rest =>
      match ReadAll rest with
      | Ok bs => Ok (b ++ bs)
      | Err e => Err e
      end
  | ReadFail e => Err e
  end.

(** Every byte the stream holds, up to its end of file or failure. *)
Fixpoint stream_bytes (rc : ReadCloser) : bytes :=
  match rc with
  | EOF => []
  | Chunk b rest => b ++ stream_bytes rest
  | ReadFail _ => []
  end.

(** The stream ends in end of file, not in a read error. *)
Fixpoint stream_ends (rc : ReadCloser) : bool :=
  match rc with
  | EOF => true
  | Chunk _ rest => stream_ends rest
  | ReadFail _ => false
  end.

(** ** The bucket ([objstore.Bucket]) *)

(** What the backend answers to each operation during one load.  [Iter]
    answers with the names it yields, in order, and its final status. *)
Record Bucket (ObjectAttributes : Type) : Type := {
  Attributes : string -> result ObjectAttributes;
  Iter : string -> list string * option error;
  Get : string -> result ReadCloser;
  Exists : string -> result bool;
  GetRange : string -> Z -> Z -> result ReadCloser
}.
Arguments Attributes {ObjectAttributes} _ _.
Arguments Iter {ObjectAttributes} _ _.
Arguments Get {ObjectAttributes} _ _.
Arguments Exists {ObjectAttributes} _ _.
Arguments GetRange {ObjectAttributes} _ _ _ _.

(** [Bucket.Iter(ctx, dir, f)]: calls [f] on each name the backend yields
    and stops at the first error [f] returns. *)
Fixpoint Iter_run {S : Type} (names : list string) (final : option error)
    (f : string -> S -> option error * S) (s : S) : option error * S :=
  match names with
  | [] => (final, s)
  | n :: rest =>
      match f n s with
      | (Some e, s') => (Some e, s')
      | (None, s') => Iter_run rest final f s'
      end
  end.

(** ** The destination codec ([galaxycache.Codec]) *)

Class Codec (D : Type) : Type := {
  MarshalBinary : D -> bytes * Time * option error;
  UnmarshalBinary : D -> bytes -> Time -> option error * D
}.

(** [galaxycache.ByteCodec]: keeps the bytes and the expiry it is given. *)
Record ByteCodec : Type := { bc_bytes : bytes; bc_expire : Time }.

#[export] Instance ByteCodec_Codec : Codec ByteCodec := {
  MarshalBinary c := (bc_bytes c, bc_expire c, None);
  UnmarshalBinary _ data expire :=
    (None, {| bc_bytes := data; bc_expire := expire |})
}.

(** ** Calls on collaborators, as a trace *)

Inductive Event : Type :=
| BucketAttributes (name : string)
| BucketIter (dir : string)
| BucketGet (name : string)
| BucketExists (name : string)
| BucketGetRange (name : string) (off length : Z)
| StreamReadAll
| StreamClose (msg : string)
| DestUnmarshalBinary (data : bytes) (expire : Time).

Definition is_bucket_request (ev : Event) : bool :=
  match ev with
  | BucketAttributes _ | BucketIter _ | BucketGet _ | BucketExists _
  | BucketGetRange _ _ _ => true
  | StreamReadAll | StreamClose _ | DestUnmarshalBinary _ _ => false
  end.

Definition is_envelope (ev : Event) : bool :=
  match ev with
  | DestUnmarshalBinary _ _ => true
  | _ => false
  end.

(** How a call of the getter ends: it returns an error value (nil is
    [None]) or it panics. *)
Inductive Outcome : Type :=
| Return (err : option error)
| Panic (msg : string).

(** ** The getter's control flow: a state monad with early exit *)

(** The state one call of the getter threads: the destination codec it was
    handed and the calls made so far, oldest first. *)
Record LoadState (D : Type) : Type := mkLoadState {
  dest : D;
  trace : list Event
}.
Arguments mkLoadState {D} _ _.
Arguments dest {D} _.
Arguments trace {D} _.

(** A statement either falls through with a value or leaves the function. *)
Inductive Step (A : Type) : Type :=
| Next (a : A)
| Done (o : Outcome).
Arguments Next {A} a.
Arguments Done {A} o.

Definition Load (D A : Type) : Type := LoadState D -> Step A * LoadState D.

Definition load_ret {D A} (a : A) : Load D A := fun s => (Next a, s).

Definition load_bind {D A B} (m : Load D A) (k : A -> Load D B) : Load D B :=
  fun s =>
    match m s with
    | (Next a, s') => k a s'
    | (Done o, s') => (Done o, s')
    end.

#[export] Instance Load_ret {D} : MRet (Load D) := fun A a => load_ret a.
#[export] Instance Load_bind {D} : MBind (Load D) :=
  fun A B k m => load_bind m k.

(** [return err]. *)
Definition return_ {D A} (err : option error) : Load D A :=
  fun s => (Done (Return err), s).

(** [panic(msg)]. *)
Definition panic {D A} (msg : string) : Load D A :=
  fun s => (Done (Panic msg), s).

(** Records a call on a collaborator. *)
Definition call {D} (ev : Event) : Load D unit :=
  fun s => (Next tt, mkLoadState (dest s) (trace s ++ [ev])).

(** [v, err := ...; if err != nil { return err }]. *)
Definition try {D A} (r : result A) : Load D A :=
  match r with
  | Ok a => load_ret a
  | Err e => return_ (Some e)
  end.

(** [if cfg == nil { panic(msg) }]. *)
Definition must_find {D A} (cfg : option A) (msg : string) : Load D A :=
  match cfg with
  | Some c => load_ret c
  | None => panic msg
  end.

(** [defer runutil.CloseWithLogOnErr(logger, rc, msg)] followed by the rest
    of the function: the stream is closed when the function leaves, on
    every path. *)
Definition defer_close {D A} (msg : string) (body : Load D A) : Load D A :=
  fun s =>
    let (r, s') := body s in
    (r, mkLoadState (dest s') (trace s' ++ [StreamClose msg])).

(** [return dest.UnmarshalBinary(data, expire)]. *)
Definition return_UnmarshalBinary {D A} `{Codec D} (data : bytes)
    (expire : Time) : Load D A :=
  fun s =>
    let (err, d') := UnmarshalBinary (dest s) data expire in
    (Done (Return err),
     mkLoadState d' (trace s ++ [DestUnmarshalBinary data expire])).

(** Runs a function body; a body of type [Load D Empty_set] cannot fall off
    its end. *)
Definition run_body {D} (body : Load D Empty_set) (s : LoadState D)
    : Outcome * LoadState D :=
  match body s with
  | (Next a, _) => match a with end
  | (Done o, s') => (o, s')
  end.

Definition unconfigured : string :=
  "caching bucket layer must not call on unconfigured paths".

(** ** The getter registered by [NewGroupcacheWithConfig] *)

(** What the getter takes from outside the file: the five verb constants
    of [cachekey], [cachekey.ParseBucketCacheKey], the type
    [objstore.ObjectAttributes], [json.Marshal] at the two types the getter
    encodes, and the [cfg] and [bucket] the closure captures. *)
Record Env : Type := {
  AttributesVerb : VerbType;
  IterVerb : VerbType;
  ContentVerb : VerbType;
  ExistsVerb : VerbType;
  SubrangeVerb : VerbType;
  ParseBucketCacheKey : string -> result BucketCacheKey;
  ObjectAttributes : Type;
  json_Marshal_attrs : ObjectAttributes -> result bytes;
  json_Marshal_list : list string -> result bytes;
  cfg : CachingBucketConfig;
  bucket : Bucket ObjectAttributes
}.

(** A Go [switch] does not compile with two equal constant cases. *)
Definition verbs_distinct (env : Env) : Prop :=
  NoDup [AttributesVerb env; IterVerb env; ContentVerb env; ExistsVerb env;
         SubrangeVerb env].

(** The callback handed to [bucket.Iter]: [list = append(list, s)]. *)
Definition iter_append (s : string) (lst : list string)
    : option error * list string :=
  (None, lst ++ [s]).

Section Getter.

Variable env : Env.
Context {D : Type} `{Codec D}.

(** [now] is the reading [time.Now()] gives on the one path that takes it. *)
Definition getter_body (now : Time) (id : string) : Load D Empty_set :=
  parsedData ← try (ParseBucketCacheKey env id);
  if String.eqb (Verb parsedData) (AttributesVerb env) then
    attrCfg ← must_find (FindAttributesConfig (cfg env) (Name parsedData)) unconfigured;
    call (BucketAttributes (Name parsedData));;
    attrs ← try (Attributes (bucket env) (Name parsedData));
    finalAttrs ← try (json_Marshal_attrs env attrs);
    return_UnmarshalBinary finalAttrs (Time_Add now (AttributesConfig_TTL attrCfg))
  else if String.eqb (Verb parsedData) (IterVerb env) then
    iterCfg ← must_find (FindIterConfig (cfg env) (Name parsedData)) unconfigured;
    call (BucketIter (Name parsedData));;
    let (names, final) := Iter (bucket env) (Name parsedData) in
    let (err, lst) := Iter_run names final iter_append [] in
    match err with
    | Some e => return_ (Some e)
    | None =>
        encodedList ← try (json_Marshal_list env lst);
        return_UnmarshalBinary encodedList (Time_Add now (IterConfig_TTL iterCfg))
    end
  else if String.eqb (Verb parsedData) (ContentVerb env) then
    contentCfg ← must_find (FindGetConfig (cfg env) (Name parsedData)) unconfigured;
    call (BucketGet (Name parsedData));;
    rc ← try (Get (bucket env) (Name parsedData));
    defer_close "closing get" (
      call StreamReadAll;;
      b ← try (ReadAll rc);
      return_UnmarshalBinary b (Time_Add now (ContentTTL contentCfg)))
  else if String.eqb (Verb parsedData) (ExistsVerb env) then
    existsCfg ← must_find (FindExistConfig (cfg env) (Name parsedData)) unconfigured;
    call (BucketExists (Name parsedData));;
    exists_ ← try (Exists (bucket env) (Name parsedData));
    if (exists_ : bool) then
      return_UnmarshalBinary (bytes_of_string (FormatBool exists_))
        (Time_Add now (ExistsTTL existsCfg))
    else
      return_UnmarshalBinary (bytes_of_string (FormatBool exists_))
        (Time_Add now (DoesntExistTTL existsCfg))
  else if String.eqb (Verb parsedData) (SubrangeVerb env) then
    subrangeCfg ← must_find (FindGetRangeConfig (cfg env) (Name parsedData)) unconfigured;
    call (BucketGetRange (Name parsedData) (Start parsedData)
            (int64_sub (End parsedData) (Start parsedData)));;
    rc ← try (GetRange (bucket env) (Name parsedData) (Start parsedData)
                (int64_sub (End parsedData) (Start parsedData)));
    defer_close "closing get_range" (
      call StreamReadAll;;
      b ← try (ReadAll rc);
      return_UnmarshalBinary b (Time_Add now (SubrangeTTL subrangeCfg)))
  else
    return_ None.

(** One invocation of the getter on a destination codec, from an empty
    trace. *)
Definition getter (now : Time) (id : string) (d : D) : Outcome * LoadState D :=
  run_body (getter_body now id) (mkLoadState d []).

(** *** Vocabulary for stating properties of the getter *)

(** The verb is one of the five cases of the switch. *)
Definition handled_verb (v : VerbType) : bool :=
  String.eqb v (AttributesVerb env) || String.eqb v (IterVerb env)
  || String.eqb v (ContentVerb env) || String.eqb v (ExistsVerb env)
  || String.eqb v (SubrangeVerb env).

(** The routing table has no entry for the key's verb and name. *)
Definition policy_entry_missing (pk : BucketCacheKey) : Prop :=
  (Verb pk = AttributesVerb env /\ FindAttributesConfig (cfg env) (Name pk) = None)
  \/ (Verb pk = IterVerb env /\ FindIterConfig (cfg env) (Name pk) = None)
  \/ (Verb pk = ContentVerb env /\ FindGetConfig (cfg env) (Name pk) = None)
  \/ (Verb pk = ExistsVerb env /\ FindExistConfig (cfg env) (Name pk) = None)
  \/ (Verb pk = SubrangeVerb env /\ FindGetRangeConfig (cfg env) (Name pk) = None).

(** The routing table has an entry for the key's verb and name. *)
Definition policy_entry_found (pk : BucketCacheKey) : Prop :=
  (Verb pk = AttributesVerb env /\ is_Some (FindAttributesConfig (cfg env) (Name pk)))
  \/ (Verb pk = IterVerb env /\ is_Some (FindIterConfig (cfg env) (Name pk)))
  \/ (Verb pk = ContentVerb env /\ is_Some (FindGetConfig (cfg env) (Name pk)))
  \/ (Verb pk = ExistsVerb env /\ is_Some (FindExistConfig (cfg env) (Name pk)))
  \/ (Verb pk = SubrangeVerb env /\ is_Some (FindGetRangeConfig (cfg env) (Name pk))).

(** The backend operation the key dispatches to fails with [e]: the call
    itself, or the read of the stream it returned. *)
Definition backend_fails (pk : BucketCacheKey) (e : error) : Prop :=
  (Verb pk = AttributesVerb env /\ Attributes (bucket env) (Name pk) = Err e)
  \/ (Verb pk = IterVerb env /\ snd (Iter (bucket env) (Name pk)) = Some e)
  \/ (Verb pk = ContentVerb env /\
      (Get (bucket env) (Name pk) = Err e
       \/ exists rc, Get (bucket env) (Name pk) = Ok rc /\ ReadAll rc = Err e))
  \/ (Verb pk = ExistsVerb env /\ Exists (bucket env) (Name pk) = Err e)
  \/ (Verb pk = SubrangeVerb env /\
      let len := int64_sub (End pk) (Start pk) in
      (GetRange (bucket env) (Name pk) (Start pk) len = Err e
       \/ exists rc, GetRange (bucket env) (Name pk) (Start pk) len = Ok rc
                     /\ ReadAll rc = Err e)).

(** The cache duration the policy resolves for the key's operation; for
    the exists verb it depends on the backend's answer. *)
Definition resolved_ttl (pk : BucketCacheKey) : option Duration :=
  if String.eqb (Verb pk) (AttributesVerb env) then
    AttributesConfig_TTL <$> FindAttributesConfig (cfg env) (Name pk)
  else if String.eqb (Verb pk) (IterVerb env) then
    IterConfig_TTL <$> FindIterConfig (cfg env) (Name pk)
  else if String.eqb (Verb pk) (ContentVerb env) then
    ContentTTL <$> FindGetConfig (cfg env) (Name pk)
  else if String.eqb (Verb pk) (ExistsVerb env) then
    match FindExistConfig (cfg env) (Name pk), Exists (bucket env) (Name pk) with
    | Some c, Ok true => Some (ExistsTTL c)
    | Some c, Ok false => Some (DoesntExistTTL c)
    | _, _ => None
    end
  else if String.eqb (Verb pk) (SubrangeVerb env) then
    SubrangeTTL <$> FindGetRangeConfig (cfg env) (Name pk)
  else None.

(** Every duration the routing table can hand out is strictly positive. *)
Definition config_ttls_positive : Prop :=
  (forall n c, FindAttributesConfig (cfg env) n = Some c -> 0 < AttributesConfig_TTL c)
  /\ (forall n c, FindIterConfig (cfg env) n = Some c -> 0 < IterConfig_TTL c)
  /\ (forall n c, FindGetConfig (cfg env) n = Some c -> 0 < ContentTTL c)
  /\ (forall n c, FindExistConfig (cfg env) n = Some c ->
        0 < ExistsTTL c /\ 0 < DoesntExistTTL c)
  /\ (forall n c, FindGetRangeConfig (cfg env) n = Some c -> 0 < SubrangeTTL c).

(** The envelopes a load handed to the destination codec. *)
Definition envelopes (s : LoadState D) : list Event :=
  List.filter is_envelope (trace s).

(** The requests a load made on the bucket. *)
Definition bucket_requests (s : LoadState D) : list Event :=
  List.filter is_bucket_request (trace s).

End Getter.

(** ** [Groupcache]: [Store] and [Fetch] *)

(** A line written through [level.Error(logger).Log]. *)
Record LogLine : Type := mkLogLine {
  log_msg : string;
  log_err : error;
  log_key : option string
}.

(** The [Groupcache] value together with what its methods can reach: the
    galaxy (the cache engine, which owns the getter and through it the
    backend), the universe (the membership view) and the logger's output. *)
Record Groupcache (G U : Type) : Type := mkGroupcache {
  galaxy : G;
  universe : U;
  logger : list LogLine
}.
Arguments mkGroupcache {G U} _ _ _.
Arguments galaxy {G U} _.
Arguments universe {G U} _.
Arguments logger {G U} _.

(** [Groupcache.Store]: the body is empty. *)
Definition Store {G U} (c : Groupcache G U) (data : gmap string bytes)
    (ttl : Duration) : Groupcache G U :=
  c.

Section Fetch.

(** The codec [Fetch] allocates per key ([galaxycache.ByteCodec{}]). *)
Context {D : Type} `{Codec D}.
Variable codec0 : D.

(** The galaxy's state and [galaxy.Get(ctx, k, &codec)]: the error it
    returns, the codec as it leaves it, and the galaxy afterwards. *)
Context {G : Type}.
Variable galaxy_Get : G -> string -> D -> option error * D * G.

(** The loop of [Fetch]: [data] is the map built so far. *)
Fixpoint Fetch_loop (keys : list string) (g : G) (data : gmap string bytes)
    (lg : list LogLine) : gmap string bytes * G * list LogLine :=
  match keys with
  | [] => (data, g, lg)
  | k :: rest =>
      let '(err, codec, g') := galaxy_Get g k codec0 in
      match err with
      | Some e =>
          Fetch_loop rest g' data
            (lg ++ [mkLogLine "failed fetching data from groupcache" e (Some k)])
      | None =>
          let '(retrievedData, _, err) := MarshalBinary codec in
          match err with
          | Some e =>
              Fetch_loop rest g' data
                (lg ++ [mkLogLine "failed retrieving data" e (Some k)])
          | None =>
              if (0 <? Z.of_nat (length retrievedData)) then
                Fetch_loop rest g' (<[k := retrievedData]> data) lg
              else
                Fetch_loop rest g' data lg
          end
      end
  end.

(** [Groupcache.Fetch]: the returned map, and the receiver afterwards. *)
Definition Fetch {U} (c : Groupcache G U) (keys : list string)
    : gmap string bytes * Groupcache G U :=
  let '(data, g', lg') := Fetch_loop keys (galaxy c) ∅ (logger c) in
  (data, mkGroupcache g' (universe c) lg').

(** Every load of [k] fails, whatever state the galaxy is in. *)
Definition load_always_fails (k : string) : Prop :=
  forall g, exists e c g', galaxy_Get g k codec0 = (Some e, c, g').

(** What the galaxy answers for a key (the error and the codec) does not
    depend on the state it is in. *)
Definition answers_independent_of_state : Prop :=
  forall g g' k, fst (galaxy_Get g k codec0) = fst (galaxy_Get g' k codec0).

End Fetch.

(** ** The peer-membership refresh loop *)

Inductive RefreshEvent : Type :=
| ProviderResolve (addrs : list string)
| UniverseSet (peers : list string)
| LogError (msg : string) (err : error).

Definition is_resolve (ev : RefreshEvent) : bool :=
  match ev with ProviderResolve _ => true | _ => false end.

Definition is_set (ev : RefreshEvent) : bool :=
  match ev with UniverseSet _ => true | _ => false end.

Definition is_log_error (ev : RefreshEvent) : bool :=
  match ev with LogError _ _ => true | _ => false end.

(** What the goroutine's closure holds: the DNS provider, the universe and
    the calls made so far, oldest first. *)
Record RefreshState (P U : Type) : Type := mkRefreshState {
  dnsGroupcacheProvider : P;
  published : U;
  calls : list RefreshEvent
}.
Arguments mkRefreshState {P U} _ _ _.
Arguments dnsGroupcacheProvider {P U} _.
Arguments published {P U} _.
Arguments calls {P U} _.

Section Refresher.

(** [dns.Provider]: [Resolve] and [Addresses]; [universe.Set]. *)
Context {P U : Type}.
Variable Resolve : P -> list string -> option error * P.
Variable Addresses : P -> list string.
Variable universe_Set : U -> list string -> option error * U.

(** [conf.Peers]. *)
Variable Peers : list string.

(** The body of the [for] loop, up to the wait on the ticker. *)
Definition refresh_iteration (s : RefreshState P U) : RefreshState P U :=
  let (err, p') := Resolve (dnsGroupcacheProvider s) Peers in
  match err with
  | Some e =>
      mkRefreshState p' (published s)
        (calls s ++ [ProviderResolve Peers;
                     LogError "failed to resolve addresses for groupcache" e])
  | None =>
      let (err, u') := universe_Set (published s) (Addresses p') in
      match err with
      | Some e =>
          mkRefreshState p' u'
            (calls s ++ [ProviderResolve Peers; UniverseSet (Addresses p');
                         LogError "failed to set peers for groupcache" e])
      | None =>
          mkRefreshState p' u'
            (calls s ++ [ProviderResolve Peers; UniverseSet (Addresses p')])
      end
  end.

(** The state once [n] iterations have run.  The loop has no exit: after
    [t] ticks of the ticker it has run [t + 1] iterations. *)
Fixpoint after_iterations (n : nat) (s : RefreshState P U) : RefreshState P U :=
  match n with
  | O => s
  | S m => refresh_iteration (after_iterations m s)
  end.

Definition refresh_loop (ticks : nat) (s : RefreshState P U) : RefreshState P U :=
  after_iterations (S ticks) s.

(** The resolution step of the iteration that starts in [s] fails. *)
Definition resolve_fails (s : RefreshState P U) : Prop :=
  exists e, fst (Resolve (dnsGroupcacheProvider s) Peers) = Some e.

(** How many times [Resolve] has been called. *)
Definition resolve_count (s : RefreshState P U) : nat :=
  length (List.filter is_resolve (calls s)).

(** The calls of [universe.Set] made so far. *)
Definition set_calls (s : RefreshState P U) : list RefreshEvent :=
  List.filter is_set (calls s).

(** How many errors have been logged. *)
Definition logged_errors (s : RefreshState P U) : nat :=
  length (List.filter is_log_error (calls s)).

End Refresher.

(** ** A concrete deployment, used to exercise the statements *)

Module Example.

(** A parser given by a table of keys; the last entry carries a verb the
    switch does not handle. *)
Definition parse (id : string) : result BucketCacheKey :=
  if String.eqb id "attrs:obj" then Ok (mkBucketCacheKey "attrs" "obj" 0 0)
  else if String.eqb id "attrs:broken" then Ok (mkBucketCacheKey "attrs" "broken" 0 0)
  else if String.eqb id "attrs:unconfigured" then
    Ok (mkBucketCacheKey "attrs" "unconfigured" 0 0)
  else if String.eqb id "iter:dir" then Ok (mkBucketCacheKey "iter" "dir" 0 0)
  else if String.eqb id "content:obj" then Ok (mkBucketCacheKey "content" "obj" 0 0)
  else if String.eqb id "exists:obj" then Ok (mkBucketCacheKey "exists" "obj" 0 0)
  else if String.eqb id "exists:missing-object" then
    Ok (mkBucketCacheKey "exists" "missing-object" 0 0)
  else if String.eqb id "subrange:chunk.dat:100:104" then
    Ok (mkBucketCacheKey "subrange" "chunk.dat" 100 104)
  else if String.eqb id "touch:obj" then Ok (mkBucketCacheKey "touch" "obj" 0 0)
  else Err "invalid key".

Definition configured (name : string) : bool :=
  negb (String.eqb name "unconfigured").

Definition minute : Duration := 60 * 1000000000.

Definition routing : CachingBucketConfig := {|
  FindAttributesConfig n :=
    if configured n then Some {| AttributesConfig_TTL := 2 * minute |} else None;
  FindIterConfig n :=
    if configured n then Some {| IterConfig_TTL := 3 * minute |} else None;
  FindGetConfig n :=
    if configured n then Some {| ContentTTL := 5 * minute |} else None;
  FindExistConfig n :=
    if configured n
    then Some {| ExistsTTL := 10 * minute; DoesntExistTTL := minute |}
    else None;
  FindGetRangeConfig n :=
    if configured n then Some {| SubrangeTTL := 7 * minute |} else None
|}.

(** Object attributes are reduced to the object's size. *)
Definition marshal_attrs (a : Z) : result bytes :=
  Ok (bytes_of_string "{}").

Definition marshal_list (names : list string) : result bytes :=
  Ok (bytes_of_string (String.concat "," names)).

Definition backend : Bucket Z := {|
  Attributes n :=
    if String.eqb n "obj" then Ok 4 else Err "backend down";
  Iter n := (["dir/b"; "dir/a"; "dir/c"]%string, None);
  Get n := Ok (Chunk [x61; x62] (Chunk [x63; x64] EOF));
  Exists n := Ok (String.eqb n "obj");
  GetRange n off len :=
    if (len =? 4) then Ok (Chunk [x63] (Chunk [x64; x65; x66] EOF))
    else Err "short range"
|}.

Definition codec0 : ByteCodec := {| bc_bytes := []; bc_expire := 0 |}.

Definition env : Env := {|
  AttributesVerb := "attrs";
  IterVerb := "iter";
  ContentVerb := "content";
  ExistsVerb := "exists";
  SubrangeVerb := "subrange";
  ParseBucketCacheKey := parse;
  ObjectAttributes := Z;
  json_Marshal_attrs := marshal_attrs;
  json_Marshal_list := marshal_list;
  cfg := routing;
  bucket := backend
|}.

(** A galaxy without a cache of its own: every [Get] runs the getter at
    clock reading [1000] and counts the loads it has made. *)
Definition galaxy_Get (g : nat) (k : string) (c : ByteCodec)
    : option error * ByteCodec * nat :=
  match getter env 1000 k c with
  | (Return err, s) => (err, dest s, S g)
  | (Panic msg, s) => (Some msg, dest s, S g)
  end.

(** A provider whose lookups succeed on even rounds and fail on odd ones,
    and a universe that stores the peers it is given. *)
Definition Resolve (p : nat) (addrs : list string) : option error * nat :=
  if Nat.even p then (None, S p) else (Some "lookup failed"%string, S p).

Definition Addresses (p : nat) : list string :=
  ["http://10.0.0.1:80"; "http://10.0.0.2:80"]%string.

Definition universe_Set (u : list string) (peers : list string)
    : option error * list string :=
  (None, peers).

Definition Peers : list string := ["dns+http://svc:80/"%string].

Definition start : RefreshState nat (list string) := mkRefreshState 0%nat [] [].

End Example.

(** ** Configuration: [GroupcacheConfig] and [parseGroupcacheConfig] *)

Record GroupcacheConfig : Type := mkGroupcacheConfig {
  Peers : list string;
  SelfURL : string;
  MaxSize : Z;
  GroupcacheGroup : string;
  DNSSDResolver : string;
  DNSInterval : Duration
}.

(** [time.Minute]. *)
Definition Minute : Duration := 60 * 1000000000.

(** [GroupcacheConfig{}]. *)
Definition zero_GroupcacheConfig : GroupcacheConfig :=
  mkGroupcacheConfig [] "" 0 "" "" 0.

Section Config.

(** [dns.GolangResolverType], and [yaml.Unmarshal(conf, &config)]: the
    error it returns and the configuration as it leaves it. *)
Variable GolangResolverType : string.
Variable yaml_Unmarshal :
  bytes -> GroupcacheConfig -> option error * GroupcacheConfig.

Definition DefaultGroupcacheConfig : GroupcacheConfig := {|
  Peers := [];
  SelfURL := "";
  MaxSize := 250 * 1024 * 1024;
  GroupcacheGroup := "";
  DNSSDResolver := GolangResolverType;
  DNSInterval := 1 * Minute
|}.

Definition parseGroupcacheConfig (conf : bytes)
    : GroupcacheConfig * option error :=
  let (err, config) := yaml_Unmarshal conf DefaultGroupcacheConfig in
  match err with
  | Some e => (zero_GroupcacheConfig, Some e)
  | None =>
      if (length (Peers config) =? 0)%nat then
        ({| Peers := Peers config ++ [SelfURL config];
            SelfURL := SelfURL config;
            MaxSize := MaxSize config;
            GroupcacheGroup := GroupcacheGroup config;
            DNSSDResolver := DNSSDResolver config;
            DNSInterval := DNSInterval config |}, None)
      else (config, None)
  end.

End Config.

(** The address list of a [Resolve] call is the given one and is not
    empty; other calls are not constrained. *)
Definition resolves_nonempty (addrs : list string) (ev : RefreshEvent) : Prop :=
  match ev with
  | ProviderResolve a => a = addrs /\ a <> []
  | _ => True
  end.

(** The error logged when resolution fails, as opposed to the one logged
    when [universe.Set] fails. *)
Definition is_resolve_failure (ev : RefreshEvent) : bool :=
  match ev with
  | LogError msg _ =>
      String.eqb msg "failed to resolve addresses for groupcache"
  | _ => false
  end.

(** ** What one pass of the [Fetch] loop stores for a key *)

Section FetchOutcome.

Context {D : Type} `{Codec D}.
Variable codec0 : D.
Context {G : Type}.
Variable galaxy_Get : G -> string -> D -> option error * D * G.

(** The bytes the loop body puts under [k] when the galaxy is in state
    [g], if it puts any. *)
Definition fetch_one (g : G) (k : string) : option bytes :=
  let '(err, codec, _) := galaxy_Get g k codec0 in
  match err with
  | Some _ => None
  | None =>
      let '(retrievedData, _, err) := MarshalBinary codec in
      match err with
      | Some _ => None
      | None =>
          if (0 <? Z.of_nat (length retrievedData)) then Some retrievedData
          else None
      end
  end.

End FetchOutcome.

(** ** Stream events of a getter run *)

Definition is_stream_read (ev : Event) : bool :=
  match ev with StreamReadAll => true | _ => false end.

Definition is_stream_close (ev : Event) : bool :=
  match ev with StreamClose _ => true | _ => false end.

(** ** The statistics collector *)

(** [galaxy.Stats], each counter as [Get()] reads it. *)
Record Stats : Type := mkStats {
  Gets : Z;
  Loads : Z;
  PeerLoads : Z;
  PeerLoadErrors : Z;
  BackendLoads : Z;
  BackendLoadErrors : Z;
  MaincacheHits : Z;
  HotcacheHits : Z
}.

(** [prometheus.NewDesc(fqName, help, variableLabels, nil)]. *)
Record Desc : Type := NewDesc {
  fqName : string;
  help : string;
  variableLabels : list string
}.

Inductive ValueType : Type := CounterValue | GaugeValue | UntypedValue.

(** [prometheus.MustNewConstMetric(desc, valueType, value, labelValues...)]. *)
Record Metric (F : Type) : Type := MustNewConstMetric {
  metric_desc : Desc;
  metric_type : ValueType;
  metric_value : F;
  labelValues : list string
}.
Arguments MustNewConstMetric {F} _ _ _ _.
Arguments metric_desc {F} _.
Arguments metric_type {F} _.
Arguments metric_value {F} _.
Arguments labelValues {F} _.

(** The descriptions a [CacheStatsCollector] holds; its [galaxy] field is
    read at collection time and is an argument of [Collect]. *)
Record CacheStatsCollector : Type := mkCacheStatsCollector {
  gets : Desc;
  loads : Desc;
  peerLoads : Desc;
  peerLoadErrors : Desc;
  backendLoads : Desc;
  backendLoadErrors : Desc;
  cacheHits : Desc
}.

(** The collector [RegisterCacheStatsCollector] builds and registers. *)
Definition RegisterCacheStatsCollector : CacheStatsCollector := {|
  gets := NewDesc "thanos_cache_groupcache_get_requests_total"
            "Total number of get requests, including from peers." [];
  loads := NewDesc "thanos_cache_groupcache_loads_total"
             "Total number of loads from backend (gets - cacheHits)." [];
  peerLoads := NewDesc "thanos_cache_groupcache_peer_loads_total"
                 "Total number of loads from peers (remote load or remote cache hit)." [];
  peerLoadErrors := NewDesc "thanos_cache_groupcache_peer_load_errors_total"
                      "Total number of errors from peer loads." [];
  backendLoads := NewDesc "thanos_cache_groupcache_backend_loads_total"
                    "Total number of direct backend loads." [];
  backendLoadErrors :=
    NewDesc "thanos_cache_groupcache_backend_load_errors_total"
      "Total number of errors on direct backend loads." [];
  cacheHits := NewDesc "thanos_cache_groupcache_hits_total"
                 "Total number of cache hits." ["type"%string]
|}.

Section Collector.

(** [float64] with the conversion from [int64], and the two cache-tier
    names [galaxycache.MainCache.String()], [galaxycache.HotCache.String()]. *)
Variable F : Type.
Variable float64 : Z -> F.
Variables MainCache_String HotCache_String : string.

(** [Collect]: the metrics sent on the channel, in order. *)
Definition Collect (s : CacheStatsCollector) (stats : Stats) : list (Metric F) :=
  [ MustNewConstMetric (gets s) CounterValue (float64 (Gets stats)) [];
    MustNewConstMetric (loads s) CounterValue (float64 (Loads stats)) [];
    MustNewConstMetric (peerLoads s) CounterValue (float64 (PeerLoads stats)) [];
    MustNewConstMetric (peerLoadErrors s) CounterValue
      (float64 (PeerLoadErrors stats)) [];
    MustNewConstMetric (backendLoads s) CounterValue
      (float64 (BackendLoads stats)) [];
    MustNewConstMetric (backendLoadErrors s) CounterValue
      (float64 (BackendLoadErrors stats)) [];
    MustNewConstMetric (cacheHits s) CounterValue
      (float64 (MaincacheHits stats)) [MainCache_String];
    MustNewConstMetric (cacheHits s) CounterValue
      (float64 (HotcacheHits stats)) [HotCache_String] ].

End Collector.

(** The series a sample belongs to: its metric name and label values. *)
Definition series {F} (m : Metric F) : string * list string :=
  (fqName (metric_desc m), labelValues m).

(** ** More of the concrete deployment *)

Module Deployment.

(** A decoder that reads a buffer starting with byte [x70] as a peer list
    of two entries, the empty buffer as a document that sets only the
    self URL, and rejects everything else. *)
Definition yaml_Unmarshal (conf : bytes) (config : GroupcacheConfig)
    : option error * GroupcacheConfig :=
  match conf with
  | [] =>
      (None, mkGroupcacheConfig (Peers config) "http://10.0.0.9:80"
               (MaxSize config) (GroupcacheGroup config)
               (DNSSDResolver config) (DNSInterval config))
  | x70 :: _ =>
      (None, mkGroupcacheConfig
               ["dns+http://svc:80/"; "http://10.0.0.3:80"]%string
               "http://10.0.0.9:80"
               (MaxSize config) (GroupcacheGroup config)
               (DNSSDResolver config) (DNSInterval config))
  | _ => (Some "yaml: unmarshal errors"%string, config)
  end.

Definition parse (conf : bytes) : GroupcacheConfig * option error :=
  parseGroupcacheConfig "golang" yaml_Unmarshal conf.

Definition stats : Stats := mkStats 10 6 2 1 4 1 3 1.

(** The example deployment with an encoder that rejects every name list. *)
Definition env_failing_encoder : Env := {|
  AttributesVerb := "attrs";
  IterVerb := "iter";
  ContentVerb := "content";
  ExistsVerb := "exists";
  SubrangeVerb := "subrange";
  ParseBucketCacheKey := Example.parse;
  ObjectAttributes := Z;
  json_Marshal_attrs := Example.marshal_attrs;
  json_Marshal_list := fun _ => Err "json: unsupported value";
  cfg := Example.routing;
  bucket := Example.backend
|}.

(** The example deployment with a bucket whose streams break after the
    first chunk. *)
Definition env_broken_stream : Env := {|
  AttributesVerb := "attrs";
  IterVerb := "iter";
  ContentVerb := "content";
  ExistsVerb := "exists";
  SubrangeVerb := "subrange";
  ParseBucketCacheKey := Example.parse;
  ObjectAttributes := Z;
  json_Marshal_attrs := Example.marshal_attrs;
  json_Marshal_list := Example.marshal_list;
  cfg := Example.routing;
  bucket := {|
    Attributes n := Err "backend down";
    Iter n := ([], None);
    Get n := Ok (Chunk [x61] (ReadFail "connection reset"));
    Exists n := Ok false;
    GetRange n off len := Ok (Chunk [x61] (ReadFail "connection reset"))
  |}
|}.

End Deployment.

(** ** Proof support *)

(** Unfolds the control-flow combinators of a getter run. *)
Ltac unfold_load :=
  unfold mbind, mret, Load_bind, Load_ret, load_bind, try, must_find, call,
    return_UnmarshalBinary, defer_close, return_, panic, load_ret;
  cbn beta iota zeta delta [dest trace fst snd].

(** Enters the case of the switch that the equations on verbs in the
    context select, for a key that parses by [Hparse]. *)
Ltac enter_switch Hparse :=
  unfold getter, run_body, getter_body; unfold_load;
  rewrite Hparse;
  cbn beta iota zeta delta [dest trace fst snd];
  repeat match goal with
         | Hv : Verb ?pk = _ |- context [Verb ?pk] => rewrite Hv
         | Heq : String.eqb ?a ?b = _ |- context [String.eqb ?a ?b] =>
             rewrite Heq
         end;
  rewrite ?String.eqb_refl;
  cbn beta iota zeta delta [dest trace fst snd app].

(** Case analysis on the next answer of a collaborator in the goal. *)
Ltac case_collaborator :=
  match goal with
  | |- context [FindAttributesConfig ?a ?b] =>
      destruct (FindAttributesConfig a b) eqn:?
  | |- context [FindIterConfig ?a ?b] => destruct (FindIterConfig a b) eqn:?
  | |- context [FindGetConfig ?a ?b] => destruct (FindGetConfig a b) eqn:?
  | |- context [FindExistConfig ?a ?b] => destruct (FindExistConfig a b) eqn:?
  | |- context [FindGetRangeConfig ?a ?b] =>
      destruct (FindGetRangeConfig a b) eqn:?
  | |- context [Attributes ?a ?b] => destruct (Attributes a b) eqn:?
  | |- context [Iter ?a ?b] => destruct (Iter a b) as [? [?|]] eqn:?
  | |- context [Get ?a ?b] => destruct (Get a b) eqn:?
  | |- context [Exists ?a ?b] => destruct (Exists a b) as [[|]|] eqn:?
  | |- context [GetRange ?a ?b ?c ?d] => destruct (GetRange a b c d) eqn:?
  | |- context [ReadAll ?rc] => destruct (ReadAll rc) eqn:?
  | |- context [json_Marshal_attrs ?a ?b] =>
      destruct (json_Marshal_attrs a b) eqn:?
  | |- context [json_Marshal_list ?a ?b] =>
      destruct (json_Marshal_list a b) eqn:?
  | |- context [UnmarshalBinary ?a ?b ?c] =>
      destruct (UnmarshalBinary a b c) as [[?|] ?] eqn:?
  end.

(** Splits the five-way disjunctions of the getter vocabulary. *)
Ltac split_verbs H :=
  destruct H as [[? ?] | [[? ?] | [[? ?] | [[? ?] | [? ?]]]]].

(** * Properties *)

(** ** Streams, enumeration and [int64] subtraction *)

Lemma ReadAll_complete (rc : ReadCloser) :
  stream_ends rc = true -> ReadAll rc = Ok (stream_bytes rc).
Proof.
  induction rc as [| b rest IH | e]; simpl; intros Hend.
  - reflexivity.
  - rewrite (IH Hend). reflexivity.
  - discriminate.
Qed.

Lemma ReadAll_Ok_bytes (rc : ReadCloser) (bs : bytes) :
  ReadAll rc = Ok bs -> bs = stream_bytes rc /\ stream_ends rc = true.
Proof.
  revert bs. induction rc as [| b rest IH | e]; simpl; intros bs Hr.
  - inversion Hr. auto.
  - destruct (ReadAll rest) as [bs' | e'] eqn:Hrest; [| discriminate].
    inversion Hr; subst. destruct (IH bs' eq_refl) as [-> ->]. auto.
  - discriminate.
Qed.

(** The callback never fails, so the enumeration runs to its end and the
    accumulator grows by the yielded names, in the order they came. *)
Lemma Iter_run_iter_append (names : list string) (final : option error)
    (acc : list string) :
  Iter_run names final iter_append acc = (final, acc ++ names).
Proof.
  revert acc. induction names as [| n rest IH]; intros acc; simpl.
  - rewrite app_nil_r. reflexivity.
  - rewrite IH, <- app_assoc. reflexivity.
Qed.

Lemma int64_wrap_id (z : Z) : is_int64 z -> int64_wrap z = z.
Proof.
  unfold is_int64, int64_wrap. intros Hz.
  rewrite Z.mod_small by lia. lia.
Qed.

Lemma int64_sub_exact (a b : Z) :
  is_int64 (a - b) -> int64_sub a b = a - b.
Proof. unfold int64_sub. apply int64_wrap_id. Qed.

(** Offsets that satisfy the descriptor invariant [0 <= Start <= End]
    have a difference that fits in [int64]. *)
Lemma decoded_range_fits (rangeStart rangeEnd : Z) :
  is_int64 rangeStart -> is_int64 rangeEnd ->
  0 <= rangeStart <= rangeEnd ->
  is_int64 (rangeEnd - rangeStart).
Proof. unfold is_int64. lia. Qed.

(** ** Which case the switch takes *)

Lemma verbs_distinct_eqb (env : Env) :
  verbs_distinct env ->
  String.eqb (IterVerb env) (AttributesVerb env) = false
  /\ String.eqb (ContentVerb env) (AttributesVerb env) = false
  /\ String.eqb (ContentVerb env) (IterVerb env) = false
  /\ String.eqb (ExistsVerb env) (AttributesVerb env) = false
  /\ String.eqb (ExistsVerb env) (IterVerb env) = false
  /\ String.eqb (ExistsVerb env) (ContentVerb env) = false
  /\ String.eqb (SubrangeVerb env) (AttributesVerb env) = false
  /\ String.eqb (SubrangeVerb env) (IterVerb env) = false
  /\ String.eqb (SubrangeVerb env) (ContentVerb env) = false
  /\ String.eqb (SubrangeVerb env) (ExistsVerb env) = false.
Proof.
  unfold verbs_distinct. intros Hnd.
  repeat match goal with
         | Hn : NoDup (_ :: _) |- _ =>
             let Hin := fresh "Hin" in
             apply NoDup_cons in Hn; destruct Hn as [Hin Hn]
         end.
  repeat split; apply String.eqb_neq; intros Heq;
    first [ apply Hin; rewrite Heq; set_solver
          | apply Hin; rewrite <- Heq; set_solver
          | apply Hin0; rewrite Heq; set_solver
          | apply Hin0; rewrite <- Heq; set_solver
          | apply Hin1; rewrite Heq; set_solver
          | apply Hin1; rewrite <- Heq; set_solver
          | apply Hin2; rewrite Heq; set_solver
          | apply Hin2; rewrite <- Heq; set_solver ].
Qed.

Section GetterProperties.

Variable env : Env.
Context {D : Type} `{Codec D}.
Hypothesis Hverbs : verbs_distinct env.

(** C3: a key whose verb and name have no entry in the routing table makes
    the getter panic (it does not return an error value), and the panic
    comes before any call on the bucket: the trace is empty and the
    destination codec is as it was. *)
Theorem unconfigured_path_panics (now : Time) (id : string) (d : D)
    (pk : BucketCacheKey) :
  ParseBucketCacheKey env id = Ok pk ->
  policy_entry_missing env pk ->
  getter env now id d = (Panic unconfigured, mkLoadState d []).
Proof.
  intros Hparse Hmiss.
  destruct (verbs_distinct_eqb env Hverbs)
    as (? & ? & ? & ? & ? & ? & ? & ? & ? & ?).
  split_verbs Hmiss; enter_switch Hparse;
    match goal with Hf : _ = None |- _ => rewrite Hf end; reflexivity.
Qed.

(** C9: a key that parses but whose verb is none of the five cases of the
    switch falls through to the final [return nil]: the getter returns
    success, calls nothing and leaves the destination codec as it was. *)
Theorem unknown_verb_returns_nil (now : Time) (id : string) (d : D)
    (pk : BucketCacheKey) :
  ParseBucketCacheKey env id = Ok pk ->
  handled_verb env (Verb pk) = false ->
  getter env now id d = (Return None, mkLoadState d []).
Proof.
  intros Hparse Hv. unfold handled_verb in Hv.
  repeat (apply orb_false_iff in Hv; destruct Hv as [Hv ?]).
  enter_switch Hparse. reflexivity.
Qed.

(** C2: an exists load whose backend call succeeds with answer [b] hands
    the destination codec the text of [b] ("true" or "false") with expiry
    [now] plus the exists TTL when [b] is true and [now] plus the
    doesn't-exist TTL when it is false; the bucket is asked once. *)
Theorem exists_load_payload_and_ttl (now : Time) (id : string) (d : D)
    (pk : BucketCacheKey) (c : ExistsConfig) (b : bool) :
  ParseBucketCacheKey env id = Ok pk ->
  Verb pk = ExistsVerb env ->
  FindExistConfig (cfg env) (Name pk) = Some c ->
  Exists (bucket env) (Name pk) = Ok b ->
  let payload := bytes_of_string (if b then "true" else "false")%string in
  let ttl := if b then ExistsTTL c else DoesntExistTTL c in
  getter env now id d =
    (Return (fst (UnmarshalBinary d payload (Time_Add now ttl))),
     mkLoadState (snd (UnmarshalBinary d payload (Time_Add now ttl)))
       [BucketExists (Name pk);
        DestUnmarshalBinary payload (Time_Add now ttl)]).
Proof.
  intros Hparse Hverb Hcfg Hex payload ttl.
  destruct (verbs_distinct_eqb env Hverbs)
    as (? & ? & ? & ? & ? & ? & ? & ? & ? & ?).
  enter_switch Hparse. rewrite Hcfg, Hex.
  subst payload ttl. destruct b; cbn;
    match goal with |- context [UnmarshalBinary ?x ?y ?z] =>
      destruct (UnmarshalBinary x y z) end; reflexivity.
Qed.

(** C4: for a subrange key whose difference [End - Start] fits in [int64]
    (as it does whenever [0 <= Start <= End]) the getter asks the bucket
    for exactly one range, the one that starts at [Start] and is
    [End - Start] bytes long; when the returned stream reads to its end
    the payload is every byte of the stream, the expiry is [now] plus the
    subrange TTL, and the stream is closed. *)
Theorem subrange_load_requests_exact_range (now : Time) (id : string) (d : D)
    (pk : BucketCacheKey) (c : GetRangeConfig) :
  ParseBucketCacheKey env id = Ok pk ->
  Verb pk = SubrangeVerb env ->
  FindGetRangeConfig (cfg env) (Name pk) = Some c ->
  is_int64 (End pk - Start pk) ->
  bucket_requests (snd (getter env now id d)) =
    [BucketGetRange (Name pk) (Start pk) (End pk - Start pk)]
  /\ forall rc,
       GetRange (bucket env) (Name pk) (Start pk) (End pk - Start pk) = Ok rc ->
       stream_ends rc = true ->
       let expire := Time_Add now (SubrangeTTL c) in
       getter env now id d =
         (Return (fst (UnmarshalBinary d (stream_bytes rc) expire)),
          mkLoadState (snd (UnmarshalBinary d (stream_bytes rc) expire))
            [BucketGetRange (Name pk) (Start pk) (End pk - Start pk);
             StreamReadAll;
             DestUnmarshalBinary (stream_bytes rc) expire;
             StreamClose "closing get_range"]).
Proof.
  intros Hparse Hverb Hcfg Hfits.
  destruct (verbs_distinct_eqb env Hverbs)
    as (? & ? & ? & ? & ? & ? & ? & ? & ? & ?).
  split.
  - enter_switch Hparse. rewrite Hcfg.
    rewrite (int64_sub_exact _ _ Hfits).
    destruct (GetRange (bucket env) (Name pk) (Start pk) (End pk - Start pk))
      as [rc | e]; cbn; [| reflexivity].
    destruct (ReadAll rc) as [bs | e]; cbn; [| reflexivity].
    match goal with |- context [UnmarshalBinary ?x ?y ?z] =>
      destruct (UnmarshalBinary x y z) end; reflexivity.
  - intros rc Hrc Hend expire. subst expire.
    enter_switch Hparse. rewrite Hcfg.
    rewrite (int64_sub_exact _ _ Hfits), Hrc. cbn.
    rewrite (ReadAll_complete rc Hend). cbn.
    match goal with |- context [UnmarshalBinary ?x ?y ?z] =>
      destruct (UnmarshalBinary x y z) end; reflexivity.
Qed.

(** C6: a list load hands the destination codec the encoding of exactly
    the names the backend enumeration yielded, in the order it yielded
    them, with expiry [now] plus the list TTL. *)
Theorem list_load_preserves_enumeration_order (now : Time) (id : string)
    (d : D) (pk : BucketCacheKey) (c : IterConfig) (names : list string)
    (enc : bytes) :
  ParseBucketCacheKey env id = Ok pk ->
  Verb pk = IterVerb env ->
  FindIterConfig (cfg env) (Name pk) = Some c ->
  Iter (bucket env) (Name pk) = (names, None) ->
  json_Marshal_list env names = Ok enc ->
  let expire := Time_Add now (IterConfig_TTL c) in
  getter env now id d =
    (Return (fst (UnmarshalBinary d enc expire)),
     mkLoadState (snd (UnmarshalBinary d enc expire))
       [BucketIter (Name pk); DestUnmarshalBinary enc expire]).
Proof.
  intros Hparse Hverb Hcfg Hiter Henc expire. subst expire.
  destruct (verbs_distinct_eqb env Hverbs)
    as (? & ? & ? & ? & ? & ? & ? & ? & ? & ?).
  enter_switch Hparse. rewrite Hcfg, Hiter. cbn.
  rewrite Iter_run_iter_append. cbn. rewrite Henc. cbn.
  match goal with |- context [UnmarshalBinary ?x ?y ?z] =>
    destruct (UnmarshalBinary x y z) end; reflexivity.
Qed.

(** C5: when the backend operation a configured key dispatches to fails
    with [e] (the call itself, the enumeration, or the read of a returned
    stream), the getter returns [e] and hands the destination codec
    nothing: no envelope is written and the codec is as it was. *)
Theorem backend_failure_short_circuits (now : Time) (id : string) (d : D)
    (pk : BucketCacheKey) (e : error) :
  ParseBucketCacheKey env id = Ok pk ->
  policy_entry_found env pk ->
  backend_fails env pk e ->
  fst (getter env now id d) = Return (Some e)
  /\ envelopes (snd (getter env now id d)) = []
  /\ dest (snd (getter env now id d)) = d.
Proof.
  intros Hparse Hfound Hfail.
  destruct (verbs_distinct_eqb env Hverbs)
    as (? & ? & ? & ? & ? & ? & ? & ? & ? & ?).
  split_verbs Hfound; split_verbs Hfail;
    try (exfalso;
         repeat match goal with
                | Hn : String.eqb _ _ = false |- _ => apply String.eqb_neq in Hn
                end; congruence);
    match goal with Hs : is_Some _ |- _ => destruct Hs as [c Hc] end;
    enter_switch Hparse; rewrite Hc.
  - match goal with Hf : _ = Err e |- _ => rewrite Hf end. cbn. auto.
  - destruct (Iter (bucket env) (Name pk)) as [names final].
    cbn in *. subst final. rewrite Iter_run_iter_append. cbn. auto.
  - match goal with Hf : _ \/ _ |- _ => destruct Hf as [Hg | (rc & Hg & Hr)] end;
      rewrite Hg; cbn; [| rewrite Hr; cbn]; auto.
  - match goal with Hf : _ = Err e |- _ => rewrite Hf end. cbn. auto.
  - match goal with Hf : _ |- _ =>
      cbv zeta in Hf; destruct Hf as [Hg | (rc & Hg & Hr)] end;
      rewrite Hg; cbn; [| rewrite Hr; cbn]; auto.
Qed.

(** C8: a load of a handled verb that returns success wrote exactly one
    envelope, whose expiry is [now] (the clock reading taken when the
    envelope is produced) plus the duration the policy resolves for the
    operation; when every configured duration is strictly positive the
    expiry lies strictly after [now]. *)
Theorem successful_load_expiry (now : Time) (id : string) (d : D)
    (pk : BucketCacheKey) (s' : LoadState D) :
  ParseBucketCacheKey env id = Ok pk ->
  handled_verb env (Verb pk) = true ->
  getter env now id d = (Return None, s') ->
  exists data ttl,
    resolved_ttl env pk = Some ttl
    /\ envelopes s' = [DestUnmarshalBinary data (Time_Add now ttl)]
    /\ (config_ttls_positive env -> now < Time_Add now ttl).
Proof.
  intros Hparse Hv. unfold handled_verb in Hv. unfold resolved_ttl.
  unfold getter, run_body, getter_body. unfold_load. rewrite Hparse.
  cbn beta iota zeta delta [dest trace fst snd].
  destruct (String.eqb (Verb pk) (AttributesVerb env));
    [| destruct (String.eqb (Verb pk) (IterVerb env));
       [| destruct (String.eqb (Verb pk) (ContentVerb env));
          [| destruct (String.eqb (Verb pk) (ExistsVerb env));
             [| destruct (String.eqb (Verb pk) (SubrangeVerb env));
                [| discriminate Hv ]]]]];
    clear Hv;
    repeat (first [rewrite Iter_run_iter_append | case_collaborator];
            cbn beta iota zeta delta [dest trace fst snd app]);
    intros Hrun; inversion Hrun; subst; clear Hrun;
    eexists _, _; (split; [reflexivity |]); (split; [reflexivity |]);
    intros (Ha & Hi & Hc & He & Hr); unfold Time_Add;
    repeat match goal with
           | Hf : FindAttributesConfig _ _ = Some _ |- _ => apply Ha in Hf
           | Hf : FindIterConfig _ _ = Some _ |- _ => apply Hi in Hf
           | Hf : FindGetConfig _ _ = Some _ |- _ => apply Hc in Hf
           | Hf : FindExistConfig _ _ = Some _ |- _ => apply He in Hf
           | Hf : FindGetRangeConfig _ _ = Some _ |- _ => apply Hr in Hf
           end; lia.
Qed.

End GetterProperties.

(** ** [Store] and [Fetch] *)

Section FetchProperties.

Context {D : Type} `{Codec D}.
Variable codec0 : D.
Context {G : Type}.
Variable galaxy_Get : G -> string -> D -> option error * D * G.

Lemma Fetch_loop_app (pre post : list string) (g : G)
    (data : gmap string bytes) (lg : list LogLine) :
  Fetch_loop codec0 galaxy_Get (pre ++ post) g data lg =
    let '(d1, g1, l1) := Fetch_loop codec0 galaxy_Get pre g data lg in
    Fetch_loop codec0 galaxy_Get post g1 d1 l1.
Proof.
  revert g data lg. induction pre as [| k rest IH]; intros g data lg.
  - reflexivity.
  - cbn [app Fetch_loop].
    destruct (galaxy_Get g k codec0) as [[[e |] codec] g']; [apply IH |].
    destruct (MarshalBinary codec) as [[retrieved t] [e |]]; [apply IH |].
    destruct (0 <? Z.of_nat (length retrieved)); apply IH.
Qed.

Lemma Fetch_loop_absent (k : string) (keys : list string) (g : G)
    (data : gmap string bytes) (lg : list LogLine) :
  load_always_fails codec0 galaxy_Get k ->
  data !! k = None ->
  fst (fst (Fetch_loop codec0 galaxy_Get keys g data lg)) !! k = None.
Proof.
  intros Hfail. revert g data lg.
  induction keys as [| k' rest IH]; intros g data lg Hk; [exact Hk |].
  cbn [Fetch_loop].
  destruct (galaxy_Get g k' codec0) as [[[e |] codec] g'] eqn:Hget;
    [apply IH; exact Hk |].
  destruct (decide (k' = k)) as [-> | Hne].
  - destruct (Hfail g) as (e & c & g2 & Hf). congruence.
  - destruct (MarshalBinary codec) as [[retrieved t] [e |]];
      [apply IH; exact Hk |].
    destruct (0 <? Z.of_nat (length retrieved)); apply IH; [| exact Hk].
    rewrite lookup_insert_ne by exact Hne. exact Hk.
Qed.

(** With answers that do not depend on the galaxy's state, the map a run
    of the loop builds depends on the keys and the starting map alone. *)
Lemma Fetch_loop_data_independent (keys : list string) (g g' : G)
    (data : gmap string bytes) (lg lg' : list LogLine) :
  answers_independent_of_state codec0 galaxy_Get ->
  fst (fst (Fetch_loop codec0 galaxy_Get keys g data lg)) =
  fst (fst (Fetch_loop codec0 galaxy_Get keys g' data lg')).
Proof.
  intros Hind. revert g g' data lg lg'.
  induction keys as [| k rest IH]; intros g g' data lg lg'; [reflexivity |].
  cbn [Fetch_loop]. pose proof (Hind g g' k) as Hk.
  destruct (galaxy_Get g k codec0) as [[err codec] g1].
  destruct (galaxy_Get g' k codec0) as [[err' codec'] g1'].
  cbn in Hk. inversion Hk; subst err' codec'.
  destruct err as [e |]; [apply IH |].
  destruct (MarshalBinary codec) as [[retrieved t] [e |]]; [apply IH |].
  destruct (0 <? Z.of_nat (length retrieved)); apply IH.
Qed.

(** C7: in a batch fetch, a key whose load fails is logged and skipped:
    the map built from the keys before it is passed on untouched and the
    loop goes on with the keys after it; a key whose loads all fail is
    absent from the returned map; and when the galaxy's answers do not
    depend on its state, the returned map is the one the batch without
    the failed key gives. *)
Theorem Fetch_failed_key_only_omitted {U : Type} (c : Groupcache G U)
    (pre post : list string) (k : string) :
  (forall d1 g1 l1 e cd g2,
      Fetch_loop codec0 galaxy_Get pre (galaxy c) ∅ (logger c) = (d1, g1, l1) ->
      galaxy_Get g1 k codec0 = (Some e, cd, g2) ->
      fst (Fetch codec0 galaxy_Get c (pre ++ k :: post)) =
        fst (fst (Fetch_loop codec0 galaxy_Get post g2 d1
                    (l1 ++ [mkLogLine "failed fetching data from groupcache"
                              e (Some k)]))))
  /\ (load_always_fails codec0 galaxy_Get k ->
      fst (Fetch codec0 galaxy_Get c (pre ++ k :: post)) !! k = None)
  /\ (answers_independent_of_state codec0 galaxy_Get ->
      (exists e cd g2, galaxy_Get (galaxy c) k codec0 = (Some e, cd, g2)) ->
      fst (Fetch codec0 galaxy_Get c (pre ++ k :: post)) =
      fst (Fetch codec0 galaxy_Get c (pre ++ post))).
Proof.
  split; [| split].
  - intros d1 g1 l1 e cd g2 Hpre Hget. unfold Fetch.
    rewrite Fetch_loop_app, Hpre. cbn [Fetch_loop]. rewrite Hget.
    destruct (Fetch_loop _ _ post _ _ _) as [[dd gg] ll]. reflexivity.
  - intros Hfail. unfold Fetch.
    pose proof (Fetch_loop_absent k (pre ++ k :: post) (galaxy c) ∅ (logger c)
                  Hfail (lookup_empty k)) as Habs.
    destruct (Fetch_loop _ _ (pre ++ k :: post) _ _ _) as [[dd gg] ll].
    exact Habs.
  - intros Hind (e & cd & g2 & Hget).
    assert (Hdata :
      fst (fst (Fetch_loop codec0 galaxy_Get (pre ++ k :: post)
                  (galaxy c) ∅ (logger c))) =
      fst (fst (Fetch_loop codec0 galaxy_Get (pre ++ post)
                  (galaxy c) ∅ (logger c)))).
    { rewrite !Fetch_loop_app.
      destruct (Fetch_loop codec0 galaxy_Get pre (galaxy c) ∅ (logger c))
        as [[d1 g1] l1].
      cbn [Fetch_loop]. pose proof (Hind g1 (galaxy c) k) as Hk.
      rewrite Hget in Hk.
      destruct (galaxy_Get g1 k codec0) as [[err codec] g1'].
      cbn in Hk. inversion Hk; subst err codec.
      apply Fetch_loop_data_independent. exact Hind. }
    unfold Fetch.
    destruct (Fetch_loop _ _ (pre ++ k :: post) _ _ _) as [[dd gg] ll].
    destruct (Fetch_loop _ _ (pre ++ post) _ _ _) as [[dd' gg'] ll'].
    exact Hdata.
Qed.

(** C10: [Store] leaves the galaxy (and with it the cache and the backend
    behind it), the universe and the log exactly as they were, whatever
    map and TTL it is given; a fetch after it sees nothing of the map. *)
Theorem Store_is_noop {U : Type} (c : Groupcache G U)
    (data : gmap string bytes) (ttl : Duration) :
  Store c data ttl = c
  /\ forall keys,
       Fetch codec0 galaxy_Get (Store c data ttl) keys =
       Fetch codec0 galaxy_Get c keys.
Proof.
  split; [reflexivity | intros keys; reflexivity].
Qed.

End FetchProperties.

(** ** The refresh loop *)

Section RefresherProperties.

Context {P U : Type}.
Variable Resolve : P -> list string -> option error * P.
Variable Addresses : P -> list string.
Variable universe_Set : U -> list string -> option error * U.
Variable Peers : list string.

Local Abbreviation iteration :=
  (refresh_iteration Resolve Addresses universe_Set Peers).
Local Abbreviation after :=
  (after_iterations Resolve Addresses universe_Set Peers).

Lemma refresh_iteration_resolve_fails (s : RefreshState P U) :
  resolve_fails Resolve Peers s ->
  published (iteration s) = published s
  /\ set_calls (iteration s) = set_calls s
  /\ logged_errors (iteration s) = S (logged_errors s).
Proof.
  intros [e He]. unfold refresh_iteration, set_calls, logged_errors.
  destruct (Resolve (dnsGroupcacheProvider s) Peers) as [err p'].
  cbn in He. subst err. cbn [published calls].
  rewrite !List.filter_app, !length_app. cbn.
  rewrite app_nil_r. repeat split; lia.
Qed.

Lemma resolve_count_iteration (s : RefreshState P U) :
  resolve_count (iteration s) = S (resolve_count s).
Proof.
  unfold refresh_iteration, resolve_count.
  destruct (Resolve (dnsGroupcacheProvider s) Peers) as [[e |] p'].
  - cbn [calls]. rewrite List.filter_app, length_app. cbn. lia.
  - destruct (universe_Set (published s) (Addresses p')) as [[e |] u'];
      cbn [calls]; rewrite List.filter_app, length_app; cbn; lia.
Qed.

(** C1: across any run of iterations whose resolution step fails, the
    published peer set stays what it was after the last iteration before
    the run, [universe.Set] is not called, each failure is logged, and the
    loop goes on: after [m] iterations [Resolve] has been called [m]
    times, failures included. *)
Theorem resolve_failure_keeps_membership (s0 : RefreshState P U) (n k : nat) :
  (forall i, (n <= i < n + k)%nat -> resolve_fails Resolve Peers (after i s0)) ->
  published (after (n + k)%nat s0) = published (after n s0)
  /\ set_calls (after (n + k)%nat s0) = set_calls (after n s0)
  /\ logged_errors (after (n + k)%nat s0) = (logged_errors (after n s0) + k)%nat
  /\ forall m, resolve_count (after m s0) = (m + resolve_count s0)%nat.
Proof.
  intros Hfail.
  assert (Hrun : published (after (n + k)%nat s0) = published (after n s0)
                 /\ set_calls (after (n + k)%nat s0) = set_calls (after n s0)
                 /\ logged_errors (after (n + k)%nat s0)
                    = (logged_errors (after n s0) + k)%nat).
  { induction k as [| k IH].
    - rewrite !Nat.add_0_r. auto.
    - replace (n + S k)%nat with (S (n + k)) by lia. cbn [after_iterations].
      destruct IH as (IHp & IHs & IHl); [intros i Hi; apply Hfail; lia |].
      destruct (refresh_iteration_resolve_fails (after (n + k)%nat s0))
        as (Hp & Hs & Hl); [apply Hfail; lia |].
      rewrite Hp, Hs, Hl, IHp, IHs, IHl. repeat split; lia. }
  destruct Hrun as (Hp & Hs & Hl). repeat split; try assumption.
  intros m. induction m as [| m IH]; [reflexivity |].
  cbn [after_iterations]. rewrite resolve_count_iteration, IH. lia.
Qed.

End RefresherProperties.

(** * The statements at work on the concrete deployment *)

Lemma example_verbs_distinct : verbs_distinct Example.env.
Proof.
  unfold verbs_distinct. apply (bool_decide_unpack _). vm_compute. exact I.
Qed.

(** The second iteration of the example loop fails to resolve: the peers
    published by the first iteration stay in place. *)
Lemma resolve_failure_keeps_membership_witness :
  (forall i, (1 <= i < 1 + 1)%nat ->
     resolve_fails Example.Resolve Example.Peers
       (after_iterations Example.Resolve Example.Addresses
          Example.universe_Set Example.Peers i Example.start))
  /\ published (after_iterations Example.Resolve Example.Addresses
                  Example.universe_Set Example.Peers 2 Example.start)
     = ["http://10.0.0.1:80"; "http://10.0.0.2:80"]%string.
Proof.
  assert (Hfail : forall i, (1 <= i < 1 + 1)%nat ->
            resolve_fails Example.Resolve Example.Peers
              (after_iterations Example.Resolve Example.Addresses
                 Example.universe_Set Example.Peers i Example.start)).
  { intros i Hi. assert (i = 1%nat) as -> by lia.
    exists "lookup failed"%string. reflexivity. }
  split; [exact Hfail |].
  exact (proj1 (resolve_failure_keeps_membership Example.Resolve
                  Example.Addresses Example.universe_Set Example.Peers
                  Example.start 1 1 Hfail)).
Defined.

Lemma exists_load_payload_and_ttl_witness :
  ParseBucketCacheKey Example.env "exists:obj"
    = Ok (mkBucketCacheKey "exists" "obj" 0 0)
  /\ Exists (bucket Example.env) "obj" = Ok true
  /\ getter Example.env 1000 "exists:obj" Example.codec0 =
       (Return None,
        mkLoadState
          {| bc_bytes := bytes_of_string "true";
             bc_expire := 1000 + 10 * Example.minute |}
          [BucketExists "obj";
           DestUnmarshalBinary (bytes_of_string "true")
             (1000 + 10 * Example.minute)]).
Proof.
  split; [reflexivity |]. split; [reflexivity |].
  exact (exists_load_payload_and_ttl Example.env example_verbs_distinct
           1000 "exists:obj" Example.codec0
           (mkBucketCacheKey "exists" "obj" 0 0)
           {| ExistsTTL := 10 * Example.minute;
              DoesntExistTTL := Example.minute |}
           true eq_refl eq_refl eq_refl eq_refl).
Defined.

Lemma unconfigured_path_panics_witness :
  ParseBucketCacheKey Example.env "attrs:unconfigured"
    = Ok (mkBucketCacheKey "attrs" "unconfigured" 0 0)
  /\ policy_entry_missing Example.env
       (mkBucketCacheKey "attrs" "unconfigured" 0 0)
  /\ getter Example.env 1000 "attrs:unconfigured" Example.codec0 =
       (Panic unconfigured, mkLoadState Example.codec0 []).
Proof.
  assert (Hmiss : policy_entry_missing Example.env
                    (mkBucketCacheKey "attrs" "unconfigured" 0 0)).
  { left. split; reflexivity. }
  split; [reflexivity |]. split; [exact Hmiss |].
  exact (unconfigured_path_panics Example.env example_verbs_distinct
           1000 "attrs:unconfigured" Example.codec0 _ eq_refl Hmiss).
Defined.

Lemma subrange_load_requests_exact_range_witness :
  ParseBucketCacheKey Example.env "subrange:chunk.dat:100:104"
    = Ok (mkBucketCacheKey "subrange" "chunk.dat" 100 104)
  /\ bucket_requests
       (snd (getter Example.env 1000 "subrange:chunk.dat:100:104"
               Example.codec0))
     = [BucketGetRange "chunk.dat" 100 4]
  /\ getter Example.env 1000 "subrange:chunk.dat:100:104" Example.codec0 =
       (Return None,
        mkLoadState
          {| bc_bytes := [x63; x64; x65; x66];
             bc_expire := 1000 + 7 * Example.minute |}
          [BucketGetRange "chunk.dat" 100 4;
           StreamReadAll;
           DestUnmarshalBinary [x63; x64; x65; x66]
             (1000 + 7 * Example.minute);
           StreamClose "closing get_range"]).
Proof.
  assert (Hfits : is_int64 (104 - 100)) by (unfold is_int64; lia).
  destruct (subrange_load_requests_exact_range Example.env
              example_verbs_distinct 1000 "subrange:chunk.dat:100:104"
              Example.codec0
              (mkBucketCacheKey "subrange" "chunk.dat" 100 104)
              {| SubrangeTTL := 7 * Example.minute |}
              eq_refl eq_refl eq_refl Hfits) as [Hreq Hrun].
  split; [reflexivity |]. split; [exact Hreq |].
  exact (Hrun (Chunk [x63] (Chunk [x64; x65; x66] EOF)) eq_refl eq_refl).
Defined.

Lemma backend_failure_short_circuits_witness :
  ParseBucketCacheKey Example.env "attrs:broken"
    = Ok (mkBucketCacheKey "attrs" "broken" 0 0)
  /\ backend_fails Example.env (mkBucketCacheKey "attrs" "broken" 0 0)
       "backend down"
  /\ fst (getter Example.env 1000 "attrs:broken" Example.codec0)
     = Return (Some "backend down"%string)
  /\ envelopes (snd (getter Example.env 1000 "attrs:broken" Example.codec0))
     = []
  /\ dest (snd (getter Example.env 1000 "attrs:broken" Example.codec0))
     = Example.codec0.
Proof.
  assert (Hfound : policy_entry_found Example.env
                     (mkBucketCacheKey "attrs" "broken" 0 0)).
  { left. split; [reflexivity |]. eexists. reflexivity. }
  assert (Hfail : backend_fails Example.env
                    (mkBucketCacheKey "attrs" "broken" 0 0) "backend down").
  { left. split; reflexivity. }
  split; [reflexivity |]. split; [exact Hfail |].
  exact (backend_failure_short_circuits Example.env example_verbs_distinct
           1000 "attrs:broken" Example.codec0 _ "backend down"
           eq_refl Hfound Hfail).
Defined.

(** The example backend yields its names out of alphabetical order; the
    payload keeps that order. *)
Lemma list_load_preserves_enumeration_order_witness :
  Iter (bucket Example.env) "dir" = (["dir/b"; "dir/a"; "dir/c"]%string, None)
  /\ getter Example.env 1000 "iter:dir" Example.codec0 =
       (Return None,
        mkLoadState
          {| bc_bytes := bytes_of_string "dir/b,dir/a,dir/c";
             bc_expire := 1000 + 3 * Example.minute |}
          [BucketIter "dir";
           DestUnmarshalBinary (bytes_of_string "dir/b,dir/a,dir/c")
             (1000 + 3 * Example.minute)]).
Proof.
  split; [reflexivity |].
  exact (list_load_preserves_enumeration_order Example.env
           example_verbs_distinct 1000 "iter:dir" Example.codec0
           (mkBucketCacheKey "iter" "dir" 0 0)
           {| IterConfig_TTL := 3 * Example.minute |}
           ["dir/b"; "dir/a"; "dir/c"]%string
           (bytes_of_string "dir/b,dir/a,dir/c")
           eq_refl eq_refl eq_refl eq_refl eq_refl).
Defined.

(** A batch of three keys whose middle key fails at the backend. *)
Lemma Fetch_failed_key_only_omitted_witness :
  load_always_fails Example.codec0 Example.galaxy_Get "attrs:broken"
  /\ fst (Fetch Example.codec0 Example.galaxy_Get
            (mkGroupcache 0%nat tt [])
            (["exists:obj"%string] ++ "attrs:broken"%string
               :: ["content:obj"%string]))
       !! "attrs:broken"%string = None
  /\ fst (Fetch Example.codec0 Example.galaxy_Get
            (mkGroupcache 0%nat tt [])
            (["exists:obj"%string] ++ "attrs:broken"%string
               :: ["content:obj"%string]))
     = fst (fst (Fetch_loop Example.codec0 Example.galaxy_Get
                   ["content:obj"%string] 2%nat
                   (<["exists:obj"%string := bytes_of_string "true"]> ∅)
                   [mkLogLine "failed fetching data from groupcache"
                      "backend down" (Some "attrs:broken"%string)]))
  /\ answers_independent_of_state Example.codec0 Example.galaxy_Get
  /\ fst (Fetch Example.codec0 Example.galaxy_Get
            (mkGroupcache 0%nat tt [])
            (["exists:obj"%string] ++ "attrs:broken"%string
               :: ["content:obj"%string]))
     = fst (Fetch Example.codec0 Example.galaxy_Get
              (mkGroupcache 0%nat tt [])
              (["exists:obj"%string] ++ ["content:obj"%string])).
Proof.
  assert (Hfail : load_always_fails Example.codec0 Example.galaxy_Get
                    "attrs:broken").
  { intros g. eexists _, _, _. reflexivity. }
  assert (Hind : answers_independent_of_state Example.codec0
                   Example.galaxy_Get).
  { intros g g' k. unfold Example.galaxy_Get.
    destruct (getter Example.env 1000 k Example.codec0) as [[err | msg] s];
      reflexivity. }
  destruct (Fetch_failed_key_only_omitted Example.codec0 Example.galaxy_Get
              (mkGroupcache 0%nat tt []) ["exists:obj"%string]
              ["content:obj"%string] "attrs:broken")
    as (Hskip & Habsent & Hsame).
  split; [exact Hfail |]. split; [exact (Habsent Hfail) |].
  split; [exact (Hskip _ _ _ _ _ _ eq_refl eq_refl) |].
  split; [exact Hind |].
  apply (Hsame Hind). eexists _, _, _. reflexivity.
Defined.

Lemma successful_load_expiry_witness :
  handled_verb Example.env "content" = true
  /\ getter Example.env 1000 "content:obj" Example.codec0 =
       (Return None,
        mkLoadState
          {| bc_bytes := [x61; x62; x63; x64];
             bc_expire := 1000 + 5 * Example.minute |}
          [BucketGet "obj"; StreamReadAll;
           DestUnmarshalBinary [x61; x62; x63; x64]
             (1000 + 5 * Example.minute);
           StreamClose "closing get"])
  /\ exists data ttl,
       resolved_ttl Example.env (mkBucketCacheKey "content" "obj" 0 0)
         = Some ttl
       /\ envelopes
            (mkLoadState
               {| bc_bytes := [x61; x62; x63; x64];
                  bc_expire := 1000 + 5 * Example.minute |}
               [BucketGet "obj"; StreamReadAll;
                DestUnmarshalBinary [x61; x62; x63; x64]
                  (1000 + 5 * Example.minute);
                StreamClose "closing get"])
          = [DestUnmarshalBinary data (Time_Add 1000 ttl)]
       /\ (config_ttls_positive Example.env -> 1000 < Time_Add 1000 ttl).
Proof.
  split; [reflexivity |]. split; [reflexivity |].
  exact (successful_load_expiry Example.env 1000 "content:obj" Example.codec0
           (mkBucketCacheKey "content" "obj" 0 0) _ eq_refl eq_refl eq_refl).
Defined.

Lemma unknown_verb_returns_nil_witness :
  ParseBucketCacheKey Example.env "touch:obj"
    = Ok (mkBucketCacheKey "touch" "obj" 0 0)
  /\ handled_verb Example.env "touch" = false
  /\ getter Example.env 1000 "touch:obj" Example.codec0 =
       (Return None, mkLoadState Example.codec0 []).
Proof.
  split; [reflexivity |]. split; [reflexivity |].
  exact (unknown_verb_returns_nil Example.env 1000 "touch:obj" Example.codec0
           (mkBucketCacheKey "touch" "obj" 0 0) eq_refl eq_refl).
Defined.

(** * Further properties of the getter *)

Section GetterMore.

Variable env : Env.
Context {D : Type} `{Codec D}.
Hypothesis Hverbs : verbs_distinct env.

(** A key that does not parse: the getter returns the parser's error,
    calls nothing and leaves the destination codec as it was. *)
Theorem decode_failure_returns_error (now : Time) (id : string) (d : D)
    (e : error) :
  ParseBucketCacheKey env id = Err e ->
  getter env now id d = (Return (Some e), mkLoadState d []).
Proof.
  intros Hparse. unfold getter, run_body, getter_body. unfold_load.
  rewrite Hparse. reflexivity.
Qed.

(** A content load asks the bucket for the object once; when the stream
    reads to its end the payload is every byte of the stream, the expiry
    is [now] plus the content TTL, and the stream is closed afterwards. *)
Theorem content_load_reads_whole_object (now : Time) (id : string) (d : D)
    (pk : BucketCacheKey) (c : GetConfig) :
  ParseBucketCacheKey env id = Ok pk ->
  Verb pk = ContentVerb env ->
  FindGetConfig (cfg env) (Name pk) = Some c ->
  bucket_requests (snd (getter env now id d)) = [BucketGet (Name pk)]
  /\ forall rc,
       Get (bucket env) (Name pk) = Ok rc ->
       stream_ends rc = true ->
       let expire := Time_Add now (ContentTTL c) in
       getter env now id d =
         (Return (fst (UnmarshalBinary d (stream_bytes rc) expire)),
          mkLoadState (snd (UnmarshalBinary d (stream_bytes rc) expire))
            [BucketGet (Name pk);
             StreamReadAll;
             DestUnmarshalBinary (stream_bytes rc) expire;
             StreamClose "closing get"]).
Proof.
  intros Hparse Hverb Hcfg.
  destruct (verbs_distinct_eqb env Hverbs)
    as (? & ? & ? & ? & ? & ? & ? & ? & ? & ?).
  split.
  - enter_switch Hparse. rewrite Hcfg.
    destruct (Get (bucket env) (Name pk)) as [rc | e]; cbn; [| reflexivity].
    destruct (ReadAll rc) as [bs | e]; cbn; [| reflexivity].
    match goal with |- context [UnmarshalBinary ?x ?y ?z] =>
      destruct (UnmarshalBinary x y z) end; reflexivity.
  - intros rc Hrc Hend expire. subst expire.
    enter_switch Hparse. rewrite Hcfg, Hrc. cbn.
    rewrite (ReadAll_complete rc Hend). cbn.
    match goal with |- context [UnmarshalBinary ?x ?y ?z] =>
      destruct (UnmarshalBinary x y z) end; reflexivity.
Qed.

(** An attributes load whose backend call and encoding succeed hands the
    destination codec the encoded attributes with expiry [now] plus the
    attributes TTL, after a single call on the bucket. *)
Theorem attributes_load_payload (now : Time) (id : string) (d : D)
    (pk : BucketCacheKey) (c : AttributesConfig)
    (attrs : ObjectAttributes env) (enc : bytes) :
  ParseBucketCacheKey env id = Ok pk ->
  Verb pk = AttributesVerb env ->
  FindAttributesConfig (cfg env) (Name pk) = Some c ->
  Attributes (bucket env) (Name pk) = Ok attrs ->
  json_Marshal_attrs env attrs = Ok enc ->
  let expire := Time_Add now (AttributesConfig_TTL c) in
  getter env now id d =
    (Return (fst (UnmarshalBinary d enc expire)),
     mkLoadState (snd (UnmarshalBinary d enc expire))
       [BucketAttributes (Name pk); DestUnmarshalBinary enc expire]).
Proof.
  intros Hparse Hverb Hcfg Hattr Henc expire. subst expire.
  enter_switch Hparse. rewrite Hcfg, Hattr. cbn. rewrite Henc. cbn.
  match goal with |- context [UnmarshalBinary ?x ?y ?z] =>
    destruct (UnmarshalBinary x y z) end; reflexivity.
Qed.

(** When the json encoding of the backend's answer fails (the attributes,
    or the enumerated names), the getter returns the encoder's error
    after its one call on the bucket and writes nothing to the codec. *)
Theorem encoding_failure_returns_error (now : Time) (id : string) (d : D)
    (pk : BucketCacheKey) (e : error) :
  ParseBucketCacheKey env id = Ok pk ->
  policy_entry_found env pk ->
  (Verb pk = AttributesVerb env /\
   exists attrs, Attributes (bucket env) (Name pk) = Ok attrs
                 /\ json_Marshal_attrs env attrs = Err e)
  \/ (Verb pk = IterVerb env /\
      exists names, Iter (bucket env) (Name pk) = (names, None)
                    /\ json_Marshal_list env names = Err e) ->
  fst (getter env now id d) = Return (Some e)
  /\ length (bucket_requests (snd (getter env now id d))) = 1%nat
  /\ envelopes (snd (getter env now id d)) = []
  /\ dest (snd (getter env now id d)) = d.
Proof.
  intros Hparse Hfound Hfail.
  destruct (verbs_distinct_eqb env Hverbs)
    as (? & ? & ? & ? & ? & ? & ? & ? & ? & ?).
  destruct Hfail as [[Hv (attrs & Hb & Hj)] | [Hv (names & Hb & Hj)]];
    split_verbs Hfound;
    try (exfalso;
         repeat match goal with
                | Hn : String.eqb _ _ = false |- _ => apply String.eqb_neq in Hn
                end; congruence);
    match goal with Hs : is_Some _ |- _ => destruct Hs as [c Hc] end;
    enter_switch Hparse; rewrite Hc, Hb; cbn;
    rewrite ?Iter_run_iter_append; cbn; rewrite Hj; cbn; auto.
Qed.

End GetterMore.

(** ** Invariants of every getter run *)

(** Walks every path of the getter on the key [id]. *)
Ltac every_path id :=
  unfold getter, run_body, getter_body; unfold_load;
  let pk := fresh "pk" in
  let Hparse := fresh "Hparse" in
  destruct (ParseBucketCacheKey _ id) as [pk | ?] eqn:Hparse;
  cbn beta iota zeta delta [dest trace fst snd];
  [ destruct (String.eqb (Verb pk) (AttributesVerb _)) eqn:?;
    [| destruct (String.eqb (Verb pk) (IterVerb _)) eqn:?;
       [| destruct (String.eqb (Verb pk) (ContentVerb _)) eqn:?;
          [| destruct (String.eqb (Verb pk) (ExistsVerb _)) eqn:?;
             [| destruct (String.eqb (Verb pk) (SubrangeVerb _)) eqn:? ]]]];
    repeat (first [rewrite Iter_run_iter_append | case_collaborator];
            cbn beta iota zeta delta [dest trace fst snd app])
  | ].

Section GetterInvariants.

Variable env : Env.
Context {D : Type} `{Codec D}.

(** The getter panics only on a key that parses and has no entry in the
    routing table, always with the same message, and always before any
    call: together with [unconfigured_path_panics] this makes the panic
    equivalent to the missing entry. *)
Theorem panic_only_on_unconfigured_path (now : Time) (id : string) (d : D)
    (msg : string) (s' : LoadState D) :
  getter env now id d = (Panic msg, s') ->
  msg = unconfigured
  /\ s' = mkLoadState d []
  /\ exists pk, ParseBucketCacheKey env id = Ok pk
                /\ policy_entry_missing env pk.
Proof.
  every_path id; intros Hrun; inversion Hrun; subst;
    (split; [reflexivity |]); (split; [reflexivity |]);
    eexists; (split; [reflexivity |]); unfold policy_entry_missing;
    repeat match goal with
           | Hv : String.eqb _ _ = true |- _ => apply String.eqb_eq in Hv
           end;
    tauto.
Qed.

(** Whatever the key, a run either writes nothing to the destination
    codec, which then is as it was, or writes exactly once, and then the
    value the getter returns and the codec it leaves are the ones that
    call of [UnmarshalBinary] gave. *)
Theorem codec_written_at_most_once (now : Time) (id : string) (d : D) :
  (envelopes (snd (getter env now id d)) = []
   /\ dest (snd (getter env now id d)) = d)
  \/ (exists data expire,
        envelopes (snd (getter env now id d))
          = [DestUnmarshalBinary data expire]
        /\ fst (getter env now id d)
           = Return (fst (UnmarshalBinary d data expire))
        /\ dest (snd (getter env now id d))
           = snd (UnmarshalBinary d data expire)).
Proof.
  every_path id;
    first [ left; split; reflexivity
          | right; eexists _, _; split; [reflexivity |];
            match goal with
            | Hu : UnmarshalBinary _ _ _ = _ |- _ => rewrite Hu
            end; split; reflexivity ].
Qed.

(** Whatever the key, a run makes at most one request on the bucket; it
    makes exactly one when the key parses and has an entry in the routing
    table. *)
Theorem one_bucket_request_per_load (now : Time) (id : string) (d : D) :
  (length (bucket_requests (snd (getter env now id d))) <= 1)%nat
  /\ (verbs_distinct env ->
      forall pk, ParseBucketCacheKey env id = Ok pk ->
                 policy_entry_found env pk ->
                 length (bucket_requests (snd (getter env now id d))) = 1%nat).
Proof.
  split.
  - every_path id; cbn; lia.
  - intros Hverbs pk Hparse Hfound.
    destruct (verbs_distinct_eqb env Hverbs)
      as (? & ? & ? & ? & ? & ? & ? & ? & ? & ?).
    split_verbs Hfound;
      match goal with Hs : is_Some _ |- _ => destruct Hs as [c Hc] end;
      enter_switch Hparse; rewrite Hc;
      repeat (first [rewrite Iter_run_iter_append | case_collaborator];
              cbn beta iota zeta delta [dest trace fst snd app]);
      reflexivity.
Qed.

(** Once the bucket has returned a stream for a content or subrange key,
    the stream is closed exactly once and the close is the last thing the
    run does, whether the read fails, the codec rejects the payload, or
    all goes well. *)
Theorem stream_closed_on_every_path (now : Time) (id : string) (d : D)
    (pk : BucketCacheKey) (rc : ReadCloser) :
  verbs_distinct env ->
  ParseBucketCacheKey env id = Ok pk ->
  policy_entry_found env pk ->
  (Verb pk = ContentVerb env /\ Get (bucket env) (Name pk) = Ok rc)
  \/ (Verb pk = SubrangeVerb env /\
      GetRange (bucket env) (Name pk) (Start pk)
        (int64_sub (End pk) (Start pk)) = Ok rc) ->
  exists msg,
    List.filter is_stream_close (trace (snd (getter env now id d)))
      = [StreamClose msg]
    /\ last (trace (snd (getter env now id d))) = Some (StreamClose msg)
    /\ List.filter is_stream_read (trace (snd (getter env now id d)))
       = [StreamReadAll].
Proof.
  intros Hverbs Hparse Hfound Hrc.
  destruct (verbs_distinct_eqb env Hverbs)
    as (? & ? & ? & ? & ? & ? & ? & ? & ? & ?).
  destruct Hrc as [[Hv Hrc] | [Hv Hrc]]; split_verbs Hfound;
    try (exfalso;
         repeat match goal with
                | Hn : String.eqb _ _ = false |- _ => apply String.eqb_neq in Hn
                end; congruence);
    match goal with Hs : is_Some _ |- _ => destruct Hs as [c Hc] end;
    enter_switch Hparse; rewrite Hc, Hrc; cbn;
    destruct (ReadAll rc) as [bs | e]; cbn;
    try match goal with |- context [UnmarshalBinary ?x ?y ?z] =>
          destruct (UnmarshalBinary x y z) end;
    eexists; repeat split; reflexivity.
Qed.

(** For a subrange key with any offsets, the one request on the bucket
    asks for a length that is the [int64] difference of the offsets: it
    lies in the [int64] range and differs from [End - Start] by a multiple
    of [2 ^ 64]. *)
Theorem subrange_length_is_int64_difference (now : Time) (id : string)
    (d : D) (pk : BucketCacheKey) (c : GetRangeConfig) :
  verbs_distinct env ->
  ParseBucketCacheKey env id = Ok pk ->
  Verb pk = SubrangeVerb env ->
  FindGetRangeConfig (cfg env) (Name pk) = Some c ->
  exists len,
    bucket_requests (snd (getter env now id d))
      = [BucketGetRange (Name pk) (Start pk) len]
    /\ is_int64 len
    /\ (len - (End pk - Start pk)) mod 2 ^ 64 = 0.
Proof.
  intros Hverbs Hparse Hverb Hcfg.
  destruct (verbs_distinct_eqb env Hverbs)
    as (? & ? & ? & ? & ? & ? & ? & ? & ? & ?).
  exists (int64_sub (End pk) (Start pk)). split; [| split].
  - enter_switch Hparse. rewrite Hcfg.
    repeat (case_collaborator;
            cbn beta iota zeta delta [dest trace fst snd app]);
      reflexivity.
  - unfold int64_sub, int64_wrap, is_int64.
    pose proof (Z.mod_pos_bound (End pk - Start pk + 2 ^ 63) (2 ^ 64)).
    lia.
  - unfold int64_sub, int64_wrap.
    rewrite (Z.mod_eq (End pk - Start pk + 2 ^ 63) (2 ^ 64)) by lia.
    replace (End pk - Start pk + 2 ^ 63
             - 2 ^ 64 * ((End pk - Start pk + 2 ^ 63) / 2 ^ 64) - 2 ^ 63
             - (End pk - Start pk))
      with (- ((End pk - Start pk + 2 ^ 63) / 2 ^ 64) * 2 ^ 64) by lia.
    apply Z.mod_mul. lia.
Qed.

End GetterInvariants.

(** * Further properties of [Fetch] *)

Section FetchMore.

Context {D : Type} `{Codec D}.
Variable codec0 : D.
Context {G : Type}.
Variable galaxy_Get : G -> string -> D -> option error * D * G.

Local Abbreviation loop := (Fetch_loop codec0 galaxy_Get).
Local Abbreviation one := (fetch_one codec0 galaxy_Get).

(** One pass of the loop body, seen through [fetch_one]. *)
Lemma Fetch_loop_cons (k : string) (rest : list string) (g : G)
    (data : gmap string bytes) (lg : list LogLine) :
  exists g' added,
    (length added <= 1)%nat
    /\ (is_Some (one g k) -> added = [])
    /\ loop (k :: rest) g data lg =
       loop rest g'
         (match one g k with Some v => <[k := v]> data | None => data end)
         (lg ++ added).
Proof.
  cbn [Fetch_loop]. unfold fetch_one.
  destruct (galaxy_Get g k codec0) as [[[e |] codec] g'].
  { exists g', [mkLogLine "failed fetching data from groupcache" e (Some k)].
    repeat split; [cbn; lia | intros [? ?]; discriminate]. }
  destruct (MarshalBinary codec) as [[retrieved t] [e |]].
  { exists g', [mkLogLine "failed retrieving data" e (Some k)].
    repeat split; [cbn; lia | intros [? ?]; discriminate]. }
  exists g', []. rewrite app_nil_r.
  destruct (0 <? Z.of_nat (length retrieved)); repeat split; cbn; lia.
Qed.

Lemma fetch_one_nonempty (g : G) (k : string) (v : bytes) :
  one g k = Some v -> v <> [].
Proof.
  unfold fetch_one.
  destruct (galaxy_Get g k codec0) as [[[e |] codec] g']; [discriminate |].
  destruct (MarshalBinary codec) as [[retrieved t] [e |]]; [discriminate |].
  destruct (0 <? Z.of_nat (length retrieved)) eqn:Hlen; [| discriminate].
  intros Hv. inversion Hv; subst. intros ->. discriminate.
Qed.

Lemma fetch_one_independent (g g' : G) (k : string) :
  answers_independent_of_state codec0 galaxy_Get ->
  one g k = one g' k.
Proof.
  intros Hind. unfold fetch_one. pose proof (Hind g g' k) as Hk.
  destruct (galaxy_Get g k codec0) as [[err codec] g1].
  destruct (galaxy_Get g' k codec0) as [[err' codec'] g1'].
  cbn in Hk. inversion Hk. reflexivity.
Qed.

Lemma Fetch_loop_lookup_inv (keys : list string) (g : G)
    (data : gmap string bytes) (lg : list LogLine) (k : string) (v : bytes) :
  fst (fst (loop keys g data lg)) !! k = Some v ->
  data !! k = Some v \/ (k ∈ keys /\ exists g', one g' k = Some v).
Proof.
  revert g data lg. induction keys as [| k' rest IH]; intros g data lg Hk.
  - left. exact Hk.
  - destruct (Fetch_loop_cons k' rest g data lg) as (g' & added & _ & _ & Heq).
    rewrite Heq in Hk. apply IH in Hk as [Hk | [Hin Hex]].
    + destruct (one g k') as [v' |] eqn:Hone; [| left; exact Hk].
      destruct (decide (k' = k)) as [-> | Hne].
      * rewrite lookup_insert_eq in Hk. inversion Hk; subst.
        right. split; [apply elem_of_cons; left; reflexivity | eauto].
      * rewrite lookup_insert_ne in Hk by exact Hne. left. exact Hk.
    + right. split; [apply elem_of_cons; right; exact Hin | exact Hex].
Qed.

Lemma Fetch_loop_lookup (keys : list string) (g g0 : G)
    (data : gmap string bytes) (lg : list LogLine) (k : string) :
  answers_independent_of_state codec0 galaxy_Get ->
  fst (fst (loop keys g data lg)) !! k =
    if decide (k ∈ keys)
    then match one g0 k with Some v => Some v | None => data !! k end
    else data !! k.
Proof.
  intros Hind. revert g data lg.
  induction keys as [| k' rest IH]; intros g data lg.
  - rewrite decide_False by apply not_elem_of_nil. reflexivity.
  - destruct (Fetch_loop_cons k' rest g data lg) as (g' & added & _ & _ & ->).
    rewrite IH, (fetch_one_independent g g0 k' Hind).
    destruct (decide (k = k')) as [-> | Hne].
    + rewrite (decide_True (P := k' ∈ k' :: rest))
        by (apply elem_of_cons; left; reflexivity).
      destruct (one g0 k') as [v |]; [| repeat case_decide; reflexivity].
      rewrite lookup_insert_eq. repeat case_decide; reflexivity.
    + assert (Hlk : (match one g0 k' with
                     | Some v => <[k' := v]> data
                     | None => data
                     end) !! k = data !! k).
      { destruct (one g0 k'); [apply lookup_insert_ne; congruence | reflexivity]. }
      rewrite Hlk.
      destruct (decide (k ∈ rest)) as [Hin | Hnin].
      * rewrite decide_True by (apply elem_of_cons; right; exact Hin).
        reflexivity.
      * rewrite decide_False by (rewrite elem_of_cons; tauto). reflexivity.
Qed.

Lemma Fetch_data {U : Type} (c : Groupcache G U) (keys : list string) :
  fst (Fetch codec0 galaxy_Get c keys) =
  fst (fst (loop keys (galaxy c) ∅ (logger c))).
Proof.
  unfold Fetch. destruct (Fetch_loop _ _ keys _ _ _) as [[dd gg] ll].
  reflexivity.
Qed.

(** Every entry of the map [Fetch] returns sits under a requested key,
    holds at least one byte, and is what a load of that key produced. *)
Theorem Fetch_entries_requested_and_nonempty {U : Type} (c : Groupcache G U)
    (keys : list string) (k : string) (v : bytes) :
  fst (Fetch codec0 galaxy_Get c keys) !! k = Some v ->
  k ∈ keys /\ v <> [] /\ exists g, one g k = Some v.
Proof.
  rewrite Fetch_data. intros Hk.
  apply Fetch_loop_lookup_inv in Hk as [Hk | [Hin [g Hone]]].
  - rewrite lookup_empty in Hk. discriminate.
  - split; [exact Hin |]. split; [| eauto].
    exact (fetch_one_nonempty g k v Hone).
Qed.

(** With a galaxy whose answers do not depend on its state, the returned
    map holds for each requested key exactly what a load of that key
    gives, and nothing for a key that was not requested or whose load
    failed or came back empty. *)
Theorem Fetch_lookup {U : Type} (c : Groupcache G U) (keys : list string)
    (k : string) :
  answers_independent_of_state codec0 galaxy_Get ->
  fst (Fetch codec0 galaxy_Get c keys) !! k =
    if decide (k ∈ keys) then one (galaxy c) k else None.
Proof.
  intros Hind. rewrite Fetch_data.
  rewrite (Fetch_loop_lookup keys (galaxy c) (galaxy c) ∅ (logger c) k Hind).
  rewrite lookup_empty. destruct (one (galaxy c) k); reflexivity.
Qed.

(** With such a galaxy, fetching two batches in one call gives the union
    of the maps of the two batches. *)
Theorem Fetch_app_union {U : Type} (c : Groupcache G U)
    (keys1 keys2 : list string) :
  answers_independent_of_state codec0 galaxy_Get ->
  fst (Fetch codec0 galaxy_Get c (keys1 ++ keys2)) =
  fst (Fetch codec0 galaxy_Get c keys1) ∪ fst (Fetch codec0 galaxy_Get c keys2).
Proof.
  intros Hind. apply map_eq. intros k.
  rewrite lookup_union, !Fetch_data.
  rewrite !(Fetch_loop_lookup _ (galaxy c) (galaxy c) ∅ (logger c) k Hind).
  rewrite lookup_empty.
  destruct (decide (k ∈ keys1)) as [H1 | H1];
    destruct (decide (k ∈ keys2)) as [H2 | H2];
    [ rewrite decide_True by (apply elem_of_app; tauto)
    | rewrite decide_True by (apply elem_of_app; tauto)
    | rewrite decide_True by (apply elem_of_app; tauto)
    | rewrite decide_False by (rewrite elem_of_app; tauto) ];
    destruct (one (galaxy c) k); reflexivity.
Qed.

(** With such a galaxy, the returned map depends on which keys are
    requested, not on their order, on repetitions, on the galaxy's state
    or on the log. *)
Theorem Fetch_same_keys_same_map {U : Type} (c c' : Groupcache G U)
    (keys keys' : list string) :
  answers_independent_of_state codec0 galaxy_Get ->
  (forall k, k ∈ keys <-> k ∈ keys') ->
  fst (Fetch codec0 galaxy_Get c keys) = fst (Fetch codec0 galaxy_Get c' keys').
Proof.
  intros Hind Hsame. apply map_eq. intros k. rewrite !Fetch_data.
  rewrite (Fetch_loop_lookup keys (galaxy c) (galaxy c) ∅ (logger c) k Hind).
  rewrite (Fetch_loop_lookup keys' (galaxy c') (galaxy c) ∅ (logger c') k Hind).
  destruct (decide (k ∈ keys)) as [Hin | Hnin].
  - rewrite decide_True by (apply Hsame; exact Hin). reflexivity.
  - rewrite decide_False by (rewrite <- Hsame; exact Hnin). reflexivity.
Qed.

Lemma Fetch_loop_log (keys : list string) (g : G)
    (data : gmap string bytes) (lg : list LogLine) :
  exists added,
    snd (loop keys g data lg) = lg ++ added
    /\ (length added + size (fst (fst (loop keys g data lg)))
        <= length keys + size data)%nat.
Proof.
  revert g data lg. induction keys as [| k rest IH]; intros g data lg.
  - exists []. rewrite app_nil_r. split; [reflexivity | cbn; lia].
  - destruct (Fetch_loop_cons k rest g data lg)
      as (g' & added & Hlen & Hnone & ->).
    destruct (IH g' (match one g k with
                     | Some v => <[k := v]> data
                     | None => data
                     end) (lg ++ added)) as (more & -> & Hcount).
    exists (added ++ more). rewrite app_assoc. split; [reflexivity |].
    rewrite length_app. cbn [length].
    destruct (one g k) as [v |] eqn:Hone.
    + rewrite (Hnone (ex_intro _ v eq_refl)) in *. cbn [length] in *.
      pose proof (map_size_insert k v data) as Hsz.
      destruct (data !! k); unfold id in Hsz; lia.
    + lia.
Qed.

(** [Fetch] leaves the universe alone and only appends to the log; each
    requested key accounts for at most one new log line or one entry of
    the returned map, never both. *)
Theorem Fetch_log_and_membership {U : Type} (c : Groupcache G U)
    (keys : list string) :
  universe (snd (Fetch codec0 galaxy_Get c keys)) = universe c
  /\ exists added,
       logger (snd (Fetch codec0 galaxy_Get c keys)) = logger c ++ added
       /\ (length added + size (fst (Fetch codec0 galaxy_Get c keys))
           <= length keys)%nat.
Proof.
  destruct (Fetch_loop_log keys (galaxy c) ∅ (logger c))
    as (added & Hlog & Hcount).
  rewrite map_size_empty in Hcount. unfold Fetch.
  destruct (Fetch_loop _ _ keys _ _ _) as [[dd gg] ll]. cbn in *.
  split; [reflexivity |]. exists added. split; [exact Hlog | lia].
Qed.

End FetchMore.

(** * Configuration parsing and the refresh loop *)

Section ConfigProperties.

Variable GolangResolverType : string.
Variable yaml_Unmarshal :
  bytes -> GroupcacheConfig -> option error * GroupcacheConfig.

Local Abbreviation parse :=
  (parseGroupcacheConfig GolangResolverType yaml_Unmarshal).
Local Abbreviation defaults := (DefaultGroupcacheConfig GolangResolverType).

Lemma parse_success_peers (conf : bytes) (config : GroupcacheConfig) :
  parse conf = (config, None) -> Peers config <> [].
Proof.
  unfold parseGroupcacheConfig.
  destruct (yaml_Unmarshal conf defaults) as [[e |] decoded]; [discriminate |].
  destruct (Peers decoded) as [| p ps] eqn:Hp; cbn; intros Heq;
    inversion Heq; subst; cbn; [discriminate | rewrite Hp; discriminate].
Qed.

(** What [parseGroupcacheConfig] returns, for every buffer: when the
    decoder fails, the zero configuration and the decoder's error, so
    nothing of a partial decode gets out; when it succeeds, no error and
    the decoded configuration, except that an empty peer list is replaced
    by the self URL alone.  A successful parse never has an empty peer
    list. *)
Theorem parseGroupcacheConfig_outcomes (conf : bytes) :
  let decoded := snd (yaml_Unmarshal conf defaults) in
  match fst (yaml_Unmarshal conf defaults) with
  | Some e => parse conf = (zero_GroupcacheConfig, Some e)
  | None =>
      snd (parse conf) = None
      /\ Peers (fst (parse conf))
         = match Peers decoded with
           | [] => [SelfURL decoded]
           | _ :: _ => Peers decoded
           end
      /\ length (Peers (fst (parse conf))) = Nat.max 1 (length (Peers decoded))
      /\ SelfURL (fst (parse conf)) = SelfURL decoded
      /\ MaxSize (fst (parse conf)) = MaxSize decoded
      /\ GroupcacheGroup (fst (parse conf)) = GroupcacheGroup decoded
      /\ DNSSDResolver (fst (parse conf)) = DNSSDResolver decoded
      /\ DNSInterval (fst (parse conf)) = DNSInterval decoded
  end.
Proof.
  unfold parseGroupcacheConfig.
  destruct (yaml_Unmarshal conf defaults) as [[e |] decoded];
    cbn [fst snd]; [reflexivity |].
  destruct (Peers decoded) as [| p ps] eqn:Hp; cbn;
    rewrite ?Hp; repeat split; cbn; lia.
Qed.

Context {P U : Type}.
Variable Resolve : P -> list string -> option error * P.
Variable Addresses : P -> list string.
Variable universe_Set : U -> list string -> option error * U.

Lemma after_iterations_calls (peers : list string) (m : nat)
    (s0 : RefreshState P U) :
  peers <> [] ->
  exists added,
    calls (after_iterations Resolve Addresses universe_Set peers m s0)
      = calls s0 ++ added
    /\ Forall (resolves_nonempty peers) added.
Proof.
  intros Hne. induction m as [| m (added & Hcalls & Hall)].
  - exists []. rewrite app_nil_r. split; [reflexivity | constructor].
  - cbn [after_iterations]. unfold refresh_iteration.
    destruct (Resolve _ peers) as [[e |] p'].
    + exists (added ++ [ProviderResolve peers;
                        LogError "failed to resolve addresses for groupcache" e]).
      cbn [calls]. rewrite Hcalls, app_assoc. split; [reflexivity |].
      apply Forall_app. split; [exact Hall |].
      repeat constructor; assumption.
    + destruct (universe_Set _ (Addresses p')) as [[e |] u'].
      * exists (added ++ [ProviderResolve peers; UniverseSet (Addresses p');
                          LogError "failed to set peers for groupcache" e]).
        cbn [calls]. rewrite Hcalls, app_assoc. split; [reflexivity |].
        apply Forall_app. split; [exact Hall |].
        repeat constructor; assumption.
      * exists (added ++ [ProviderResolve peers; UniverseSet (Addresses p')]).
        cbn [calls]. rewrite Hcalls, app_assoc. split; [reflexivity |].
        apply Forall_app. split; [exact Hall |].
        repeat constructor; assumption.
Qed.

(** A refresh loop run on the peers of a successfully parsed
    configuration only ever appends to the call trace, and every
    [Resolve] it makes is given that peer list, which is never empty. *)
Theorem refresh_resolves_parsed_peers (conf : bytes)
    (config : GroupcacheConfig) (s0 : RefreshState P U) (m : nat) :
  parse conf = (config, None) ->
  exists added,
    calls (after_iterations Resolve Addresses universe_Set (Peers config) m s0)
      = calls s0 ++ added
    /\ Forall (resolves_nonempty (Peers config)) added.
Proof.
  intros Hparse. apply after_iterations_calls.
  exact (parse_success_peers conf config Hparse).
Qed.

(** Every iteration of the refresh loop does exactly one of two things:
    it calls [universe.Set] once, or it logs a resolution failure; and it
    logs at most one error.  So after [m] iterations the two counts have
    grown by [m] together and the log by at most [m]. *)
Theorem refresh_iteration_accounting (peers : list string)
    (s0 : RefreshState P U) (m : nat) :
  let s := after_iterations Resolve Addresses universe_Set peers m s0 in
  (length (set_calls s) + length (List.filter is_resolve_failure (calls s))
   = m + (length (set_calls s0)
          + length (List.filter is_resolve_failure (calls s0))))%nat
  /\ (logged_errors s <= logged_errors s0 + m)%nat.
Proof.
  cbv zeta. induction m as [| m [IHc IHl]]; [cbn; lia |].
  cbn [after_iterations].
  set (s := after_iterations Resolve Addresses universe_Set peers m s0) in *.
  unfold refresh_iteration, set_calls, logged_errors in *.
  destruct (Resolve (dnsGroupcacheProvider s) peers) as [[e |] p'].
  - cbn [calls]. rewrite !List.filter_app, !length_app. cbn. lia.
  - destruct (universe_Set (published s) (Addresses p')) as [[e |] u'];
      cbn [calls]; rewrite !List.filter_app, !length_app; cbn; lia.
Qed.

End ConfigProperties.

(** * The statistics collector *)

Section CollectorProperties.

Variable F : Type.
Variable float64 : Z -> F.
Variables MainCache_String HotCache_String : string.

(** For any reading of the statistics, [Collect] on the registered
    collector sends eight counter samples carrying the eight counters in
    a fixed order; each sample has as many label values as its
    description has variable labels; and when the main and hot tiers have
    different names no two samples belong to the same series. *)
Theorem Collect_samples (stats : Stats) :
  MainCache_String <> HotCache_String ->
  let ms := Collect F float64 MainCache_String HotCache_String
              RegisterCacheStatsCollector stats in
  map metric_value ms
    = map float64 [Gets stats; Loads stats; PeerLoads stats;
                   PeerLoadErrors stats; BackendLoads stats;
                   BackendLoadErrors stats; MaincacheHits stats;
                   HotcacheHits stats]
  /\ Forall (fun m => metric_type m = CounterValue
                      /\ length (labelValues m)
                         = length (variableLabels (metric_desc m))) ms
  /\ NoDup (map series ms).
Proof.
  intros Hne ms. subst ms. split; [reflexivity |]. split.
  - repeat constructor.
  - unfold Collect, series. cbn.
    repeat (apply NoDup_cons; split;
            [ rewrite ?elem_of_cons, elem_of_nil; intros Hin;
              repeat destruct Hin as [Hin | Hin];
              try discriminate; try contradiction;
              inversion Hin; congruence
            | ]).
    apply NoDup_nil. exact I.
Qed.

End CollectorProperties.

(** * The further statements at work *)

Lemma deployment_verbs_distinct :
  verbs_distinct Deployment.env_failing_encoder
  /\ verbs_distinct Deployment.env_broken_stream.
Proof.
  split; unfold verbs_distinct; apply (bool_decide_unpack _); vm_compute;
    exact I.
Qed.

Lemma example_answers_independent :
  answers_independent_of_state Example.codec0 Example.galaxy_Get.
Proof.
  intros g g' k. unfold Example.galaxy_Get.
  destruct (getter Example.env 1000 k Example.codec0) as [[err | msg] s];
    reflexivity.
Qed.

Lemma decode_failure_returns_error_witness :
  ParseBucketCacheKey Example.env "garbage" = Err "invalid key"
  /\ getter Example.env 1000 "garbage" Example.codec0 =
       (Return (Some "invalid key"%string), mkLoadState Example.codec0 []).
Proof.
  split; [reflexivity |].
  exact (decode_failure_returns_error Example.env 1000 "garbage"
           Example.codec0 "invalid key" eq_refl).
Defined.

Lemma content_load_reads_whole_object_witness :
  bucket_requests (snd (getter Example.env 1000 "content:obj" Example.codec0))
    = [BucketGet "obj"]
  /\ getter Example.env 1000 "content:obj" Example.codec0 =
       (Return None,
        mkLoadState
          {| bc_bytes := [x61; x62; x63; x64];
             bc_expire := 1000 + 5 * Example.minute |}
          [BucketGet "obj"; StreamReadAll;
           DestUnmarshalBinary [x61; x62; x63; x64]
             (1000 + 5 * Example.minute);
           StreamClose "closing get"]).
Proof.
  destruct (content_load_reads_whole_object Example.env
              example_verbs_distinct 1000 "content:obj" Example.codec0
              (mkBucketCacheKey "content" "obj" 0 0)
              {| ContentTTL := 5 * Example.minute |}
              eq_refl eq_refl eq_refl) as [Hreq Hrun].
  split; [exact Hreq |].
  exact (Hrun (Chunk [x61; x62] (Chunk [x63; x64] EOF)) eq_refl eq_refl).
Defined.

Lemma attributes_load_payload_witness :
  Attributes (bucket Example.env) "obj" = Ok 4
  /\ getter Example.env 1000 "attrs:obj" Example.codec0 =
       (Return None,
        mkLoadState
          {| bc_bytes := bytes_of_string "{}";
             bc_expire := 1000 + 2 * Example.minute |}
          [BucketAttributes "obj";
           DestUnmarshalBinary (bytes_of_string "{}")
             (1000 + 2 * Example.minute)]).
Proof.
  split; [reflexivity |].
  exact (attributes_load_payload Example.env 1000 "attrs:obj" Example.codec0
           (mkBucketCacheKey "attrs" "obj" 0 0)
           {| AttributesConfig_TTL := 2 * Example.minute |}
           4 (bytes_of_string "{}")
           eq_refl eq_refl eq_refl eq_refl eq_refl).
Defined.

Lemma encoding_failure_returns_error_witness :
  json_Marshal_list Deployment.env_failing_encoder
    ["dir/b"; "dir/a"; "dir/c"]%string = Err "json: unsupported value"
  /\ fst (getter Deployment.env_failing_encoder 1000 "iter:dir" Example.codec0)
     = Return (Some "json: unsupported value"%string)
  /\ length (bucket_requests
               (snd (getter Deployment.env_failing_encoder 1000 "iter:dir"
                       Example.codec0))) = 1%nat
  /\ envelopes (snd (getter Deployment.env_failing_encoder 1000 "iter:dir"
                       Example.codec0)) = []
  /\ dest (snd (getter Deployment.env_failing_encoder 1000 "iter:dir"
                  Example.codec0)) = Example.codec0.
Proof.
  assert (Hfound : policy_entry_found Deployment.env_failing_encoder
                     (mkBucketCacheKey "iter" "dir" 0 0)).
  { right. left. split; [reflexivity |]. eexists. reflexivity. }
  split; [reflexivity |].
  apply (encoding_failure_returns_error Deployment.env_failing_encoder
           (proj1 deployment_verbs_distinct) 1000 "iter:dir" Example.codec0
           (mkBucketCacheKey "iter" "dir" 0 0) "json: unsupported value"
           eq_refl Hfound).
  right. split; [reflexivity |].
  exists ["dir/b"; "dir/a"; "dir/c"]%string. split; reflexivity.
Defined.

Lemma panic_only_on_unconfigured_path_witness :
  getter Example.env 1000 "attrs:unconfigured" Example.codec0 =
    (Panic unconfigured, mkLoadState Example.codec0 [])
  /\ exists pk, ParseBucketCacheKey Example.env "attrs:unconfigured" = Ok pk
                /\ policy_entry_missing Example.env pk.
Proof.
  split; [reflexivity |].
  exact (proj2 (proj2 (panic_only_on_unconfigured_path Example.env 1000
                         "attrs:unconfigured" Example.codec0 unconfigured
                         (mkLoadState Example.codec0 []) eq_refl))).
Defined.

Lemma one_bucket_request_per_load_witness :
  policy_entry_found Example.env (mkBucketCacheKey "exists" "obj" 0 0)
  /\ length (bucket_requests
               (snd (getter Example.env 1000 "exists:obj" Example.codec0)))
     = 1%nat.
Proof.
  assert (Hfound : policy_entry_found Example.env
                     (mkBucketCacheKey "exists" "obj" 0 0)).
  { do 3 right. left. split; [reflexivity |]. eexists. reflexivity. }
  split; [exact Hfound |].
  exact (proj2 (one_bucket_request_per_load Example.env 1000 "exists:obj"
                  Example.codec0)
           example_verbs_distinct _ eq_refl Hfound).
Defined.

(** The stream breaks after its first chunk: the run returns the read
    error and still closes the stream last. *)
Lemma stream_closed_on_every_path_witness :
  fst (getter Deployment.env_broken_stream 1000 "content:obj" Example.codec0)
    = Return (Some "connection reset"%string)
  /\ exists msg,
       List.filter is_stream_close
         (trace (snd (getter Deployment.env_broken_stream 1000 "content:obj"
                        Example.codec0))) = [StreamClose msg]
       /\ last (trace (snd (getter Deployment.env_broken_stream 1000
                              "content:obj" Example.codec0)))
          = Some (StreamClose msg)
       /\ List.filter is_stream_read
            (trace (snd (getter Deployment.env_broken_stream 1000
                           "content:obj" Example.codec0))) = [StreamReadAll].
Proof.
  assert (Hfound : policy_entry_found Deployment.env_broken_stream
                     (mkBucketCacheKey "content" "obj" 0 0)).
  { do 2 right. left. split; [reflexivity |]. eexists. reflexivity. }
  split; [reflexivity |].
  apply (stream_closed_on_every_path Deployment.env_broken_stream 1000
           "content:obj" Example.codec0
           (mkBucketCacheKey "content" "obj" 0 0)
           (Chunk [x61] (ReadFail "connection reset"))
           (proj2 deployment_verbs_distinct) eq_refl Hfound).
  left. split; reflexivity.
Defined.

Lemma subrange_length_is_int64_difference_witness :
  exists len,
    bucket_requests
      (snd (getter Example.env 1000 "subrange:chunk.dat:100:104"
              Example.codec0))
      = [BucketGetRange "chunk.dat" 100 len]
    /\ is_int64 len
    /\ (len - (104 - 100)) mod 2 ^ 64 = 0.
Proof.
  exact (subrange_length_is_int64_difference Example.env 1000
           "subrange:chunk.dat:100:104" Example.codec0
           (mkBucketCacheKey "subrange" "chunk.dat" 100 104)
           {| SubrangeTTL := 7 * Example.minute |}
           example_verbs_distinct eq_refl eq_refl eq_refl).
Defined.

Lemma Fetch_entries_requested_and_nonempty_witness :
  fst (Fetch Example.codec0 Example.galaxy_Get (mkGroupcache 0%nat tt [])
         ["touch:obj"; "exists:obj"]%string) !! "exists:obj"%string
    = Some (bytes_of_string "true")
  /\ "exists:obj"%string ∈ ["touch:obj"; "exists:obj"]%string
  /\ bytes_of_string "true" <> []
  /\ exists g, fetch_one Example.codec0 Example.galaxy_Get g "exists:obj"
               = Some (bytes_of_string "true").
Proof.
  assert (Hk : fst (Fetch Example.codec0 Example.galaxy_Get
                      (mkGroupcache 0%nat tt [])
                      ["touch:obj"; "exists:obj"]%string)
                 !! "exists:obj"%string = Some (bytes_of_string "true"))
    by (vm_compute; reflexivity).
  split; [exact Hk |].
  exact (Fetch_entries_requested_and_nonempty Example.codec0
           Example.galaxy_Get (mkGroupcache 0%nat tt [])
           ["touch:obj"; "exists:obj"]%string "exists:obj"
           (bytes_of_string "true") Hk).
Defined.

(** A key of an unhandled verb loads successfully but empty, and a key
    whose load fails is logged: neither is in the map. *)
Lemma Fetch_lookup_witness :
  answers_independent_of_state Example.codec0 Example.galaxy_Get
  /\ fst (Fetch Example.codec0 Example.galaxy_Get (mkGroupcache 0%nat tt [])
            ["touch:obj"; "attrs:broken"; "exists:obj"]%string)
       !! "touch:obj"%string = None
  /\ fst (Fetch Example.codec0 Example.galaxy_Get (mkGroupcache 0%nat tt [])
            ["touch:obj"; "attrs:broken"; "exists:obj"]%string)
       !! "exists:obj"%string = Some (bytes_of_string "true").
Proof.
  split; [exact example_answers_independent |]. split.
  - exact (eq_trans
             (Fetch_lookup Example.codec0 Example.galaxy_Get
                (mkGroupcache 0%nat tt [])
                ["touch:obj"; "attrs:broken"; "exists:obj"]%string
                "touch:obj" example_answers_independent)
             eq_refl).
  - exact (eq_trans
             (Fetch_lookup Example.codec0 Example.galaxy_Get
                (mkGroupcache 0%nat tt [])
                ["touch:obj"; "attrs:broken"; "exists:obj"]%string
                "exists:obj" example_answers_independent)
             eq_refl).
Defined.

Lemma Fetch_app_union_witness :
  answers_independent_of_state Example.codec0 Example.galaxy_Get
  /\ fst (Fetch Example.codec0 Example.galaxy_Get (mkGroupcache 0%nat tt [])
            (["exists:obj"; "attrs:broken"]%string ++ ["content:obj"%string]))
     = fst (Fetch Example.codec0 Example.galaxy_Get (mkGroupcache 0%nat tt [])
              ["exists:obj"; "attrs:broken"]%string)
       ∪ fst (Fetch Example.codec0 Example.galaxy_Get
                (mkGroupcache 0%nat tt []) ["content:obj"%string]).
Proof.
  split; [exact example_answers_independent |].
  exact (Fetch_app_union Example.codec0 Example.galaxy_Get
           (mkGroupcache 0%nat tt []) ["exists:obj"; "attrs:broken"]%string
           ["content:obj"%string] example_answers_independent).
Defined.

Lemma Fetch_same_keys_same_map_witness :
  (forall k : string,
     k ∈ ["exists:obj"; "content:obj"; "exists:obj"]%string
     <-> k ∈ ["content:obj"; "exists:obj"]%string)
  /\ fst (Fetch Example.codec0 Example.galaxy_Get (mkGroupcache 0%nat tt [])
            ["exists:obj"; "content:obj"; "exists:obj"]%string)
     = fst (Fetch Example.codec0 Example.galaxy_Get (mkGroupcache 7%nat tt [])
              ["content:obj"; "exists:obj"]%string).
Proof.
  assert (Hsame : forall k : string,
            k ∈ ["exists:obj"; "content:obj"; "exists:obj"]%string
            <-> k ∈ ["content:obj"; "exists:obj"]%string).
  { intros k. rewrite !elem_of_cons, !elem_of_nil. tauto. }
  split; [exact Hsame |].
  exact (Fetch_same_keys_same_map Example.codec0 Example.galaxy_Get
           (mkGroupcache 0%nat tt []) (mkGroupcache 7%nat tt [])
           _ _ example_answers_independent Hsame).
Defined.

(** A document without peers: the loop resolves the self URL alone. *)
Lemma refresh_resolves_parsed_peers_witness :
  Deployment.parse []
    = (mkGroupcacheConfig ["http://10.0.0.9:80"%string] "http://10.0.0.9:80"
         (250 * 1024 * 1024) "" "golang" (1 * Minute), None)
  /\ exists added,
       calls (after_iterations Example.Resolve Example.Addresses
                Example.universe_Set ["http://10.0.0.9:80"%string] 3
                Example.start)
         = calls Example.start ++ added
       /\ Forall (resolves_nonempty ["http://10.0.0.9:80"%string]) added.
Proof.
  split; [reflexivity |].
  exact (refresh_resolves_parsed_peers "golang" Deployment.yaml_Unmarshal
           Example.Resolve Example.Addresses Example.universe_Set []
           (mkGroupcacheConfig ["http://10.0.0.9:80"%string]
              "http://10.0.0.9:80" (250 * 1024 * 1024) "" "golang"
              (1 * Minute))
           Example.start 3 eq_refl).
Defined.

Lemma Collect_samples_witness :
  "maincache"%string <> "hotcache"%string
  /\ NoDup (map series
              (Collect Z (fun z => z) "maincache" "hotcache"
                 RegisterCacheStatsCollector Deployment.stats)).
Proof.
  assert (Hne : "maincache"%string <> "hotcache"%string) by discriminate.
  split; [exact Hne |].
  exact (proj2 (proj2 (Collect_samples Z (fun z => z) "maincache" "hotcache"
                         Deployment.stats Hne))).
Defined.
